(** * A thread pool with a bounded task queue: model and properties

    Shallow embedding of [include/threadpool.h] and [src/threadpool.cpp].

    Objects that the C++ code reaches through pointers ([Task], [Result])
    live in explicit stores indexed by address.  Every critical section of
    the pool (the code run while [taskQueMtx_] is held) is one function on
    the process state; a waiting thread is represented by the states it
    observes when it wakes up, and a worker can be stopped between its
    test of [isPoolRunning_] and the critical section that follows.
    Unsigned counters wrap around, signed overflow and null dereferences
    have no successor state. *)

From stdpp Require Import base option list gmap strings.
From Stdlib Require Import ZArith Lia.

Local Open Scope Z_scope.

(** ** Machine integers *)

Module Int.

Definition UINT_MODULUS : Z := 2 ^ 32.
Definition SIZE_MODULUS : Z := 2 ^ 64.
Definition INT32_MAX : Z := 2 ^ 31 - 1.
Definition INT32_MIN : Z := - 2 ^ 31.

(** Conversion to [unsigned int] ([std::atomic_uint]). *)
Definition to_uint (z : Z) : Z := z mod UINT_MODULUS.

(** Conversion to [size_t] (64 bits). *)
Definition to_size_t (z : Z) : Z := z mod SIZE_MODULUS.

(** The values of type [int]. *)
Definition is_int (z : Z) : bool := (INT32_MIN <=? z) && (z <=? INT32_MAX).

(** [x++] on an [int]: overflow is undefined. *)
Definition int_incr (z : Z) : option Z :=
  if z <? INT32_MAX then Some (z + 1) else None.

End Int.

(** ** The user's program

    The pool is generic in what the tasks compute.  [ctype] names the C++
    types a value can have, [cval t] is the set of values of type [t];
    [const_char_ptr] is the type of string literals, and [World] is the
    state that the overriders of [Task::run] read and write. *)

Class UserCode := {
  ctype : Type;
  ctype_eq_dec :: EqDecision ctype;
  cval : ctype -> Type;
  const_char_ptr : ctype;
  c_str : string -> cval const_char_ptr;
  World : Type
}.

(** Outcome of a call that may throw ([throw "..."] throws a C string). *)
Inductive thrown (A : Type) : Type :=
  | Returned (a : A)
  | Thrown (what : string).
Arguments Returned {A} a.
Arguments Thrown {A} what.

(** Outcome of a call that may block its thread; [Undefined] is the outcome
    of a call that needs a value the code has no way to build. *)
Inductive blocking (A : Type) : Type :=
  | Done (a : A)
  | Blocked
  | Undefined.
Arguments Done {A} a.
Arguments Blocked {A}.
Arguments Undefined {A}.

Section Any.
Context `{UserCode}.

(** [class Any]: [base_] is a [unique_ptr<Base>], null for a
    default-constructed or moved-from object; otherwise it points to an
    object of a class derived from [Base], and the only such classes are
    the [Derive<T>], which hold a [date_]. *)
Record Derive := mkDerive { dtype : ctype; date_ : cval dtype }.

Record Any := mkAny { base_ : option Derive }.

(** [Any() = default] *)
Definition Any_default : Any := mkAny None.

(** The object whose [base_] points to a [Derive<T>] holding [date]: what
    [cast<T>] looks for. *)
Definition Any_holding (T : ctype) (date : cval T) : Any :=
  mkAny (Some (mkDerive T date)).

(** [template<typename T> Any(T date) : base_(std::make_unique<T>(date))].
    The initialiser builds a [T], never a [Derive<T>], and a
    [unique_ptr<T>] initialises a [unique_ptr<Base>] only when [T] is
    derived from [Base]; [Base] is a private member of [Any], so this is
    the case for no type of a value: the constructor yields no object. *)
Definition Any_of (T : ctype) (date : cval T) : option Any := None.

(** [dynamic_cast<Derive<T>*>(base_.get())]: null for a null pointer and
    for an object whose dynamic type is not [Derive<T>]. *)
Definition dynamic_cast (T : ctype) (b : option Derive) : option (cval T) :=
  match b with
  | None => None
  | Some d =>
      match decide (dtype d = T) with
      | left e => Some (eq_rect (dtype d) cval (date_ d) T e)
      | right _ => None
      end
  end.

(** [template<typename T> T cast()] *)
Definition cast (T : ctype) (a : Any) : thrown (cval T) :=
  match dynamic_cast T (base_ a) with
  | None => Thrown "type is unmatch!"
  | Some v => Returned v
  end.

(** The source object of a move: its [unique_ptr] is left null. *)
Definition moved_from : Any := mkAny None.

End Any.

(** ** Semaphore *)

Record Semaphore := mkSemaphore { resLimit_ : Z }.

(** [Semaphore(int limit = 0) : resLimit_(0)] *)
Definition Semaphore_ctor (limit : Z) : Semaphore := mkSemaphore 0.

(** [wait()]: the thread proceeds only once [resLimit_ > 0] holds. *)
Definition Semaphore_wait (s : Semaphore) : blocking Semaphore :=
  if 0 <? resLimit_ s then Done (mkSemaphore (resLimit_ s - 1)) else Blocked.

(** [post()]: [resLimit_++] on an [int]. *)
Definition Semaphore_post (s : Semaphore) : option Semaphore :=
  mkSemaphore <$> Int.int_incr (resLimit_ s).

(** [n] calls of [post()], then of [wait()], one after the other. *)
Fixpoint posts (n : nat) (s : Semaphore) : option Semaphore :=
  match n with
  | O => Some s
  | S n' => s' ← Semaphore_post s; posts n' s'
  end.

Fixpoint waits (n : nat) (s : Semaphore) : blocking Semaphore :=
  match n with
  | O => Done s
  | S n' =>
      match Semaphore_wait s with
      | Done s' => waits n' s'
      | Blocked => Blocked
      | Undefined => Undefined
      end
  end.

(** ** Tasks and results

    A [Task] object is reached through [shared_ptr<Task>] and through the
    raw [Result*] back pointer, a [Result] through that raw pointer: both
    live in stores indexed by address.  [run] is the overrider supplied by
    the user's task class. *)

Section Objects.
Context `{UserCode}.

Record Task := mkTask {
  result_ : option Z;                 (* Result* result_, None for nullptr *)
  run : World -> Any * World          (* virtual Any run() = 0 *)
}.

Record Result := mkResult {
  any_ : Any;
  sem_ : Semaphore;
  task_ : option Z;                   (* shared_ptr<Task> task_ *)
  isValid_ : bool
}.

(** [Task::Task() : result_(nullptr)] for a task class overriding [run]. *)
Definition Task_ctor (run : World -> Any * World) : Task := mkTask None run.

(** [void Task::setResult(Result* res)] *)
Definition Task_setResult (res : option Z) (t : Task) : Task :=
  mkTask res (run t).

(** [void Result::setVal(Any any)] *)
Definition Result_setVal (any : Any) (r : Result) : option Result :=
  sem' ← Semaphore_post (sem_ r);
  Some (mkResult any sem' (task_ r) (isValid_ r)).

(** [Any Result::get()].  [return ""] converts the literal through the
    constructor template of [Any] with [T = const char*]. *)
Definition Result_get (r : Result) : blocking (Any * Result) :=
  if negb (isValid_ r) then
    match Any_of const_char_ptr (c_str EmptyString) with
    | Some any => Done (any, r)
    | None => Undefined
    end
  else
    match Semaphore_wait (sem_ r) with
    | Done sem' => Done (any_ r, mkResult moved_from sem' (task_ r) (isValid_ r))
    | Blocked => Blocked
    | Undefined => Undefined
    end.

End Objects.

(** ** The pool *)

Inductive PoolMode := MODE_FIXED | MODE_CACHED.

#[global] Instance PoolMode_eq_dec : EqDecision PoolMode.
Proof. solve_decision. Defined.

(** [class Thread]: [func_] is always [ThreadPool::threadFunc] bound to
    the pool, so only the identifier is kept. *)
Record Thread := mkThread { threadId_ : Z }.

Definition getId (t : Thread) : Z := threadId_ t.

(** [Thread::Thread(ThreadFunc func) : func_(func), threadId_(generateId_++)],
    returning the new object and the new value of the static counter. *)
Definition Thread_ctor (generateId : Z) : option (Thread * Z) :=
  g' ← Int.int_incr generateId; Some (mkThread generateId, g').

Definition TASK_MAX_THRESHHOLD : Z := Int.INT32_MAX.
Definition THREAD_MAX_THRESHHOLD : Z := 100.
Definition THREAD_MAX_IDLE_TIME : Z := 60.

Record ThreadPool := mkThreadPool {
  threads_ : gmap Z Thread;           (* unordered_map<int, unique_ptr<Thread>> *)
  initThreadSize_ : Z;                (* int *)
  idleThreadSize_ : Z;                (* atomic_uint *)
  curThreadSize_ : Z;                 (* atomic_uint *)
  threadSizeThreshHold_ : Z;          (* size_t *)
  taskQue_ : list (option Z);         (* queue<shared_ptr<Task>>, front first *)
  taskSize_ : Z;                      (* atomic_uint *)
  taskQueMaxThreshHold_ : Z;          (* size_t *)
  poolMode_ : PoolMode;
  isPoolRunning_ : bool
}.

Definition set_threads (f : gmap Z Thread -> gmap Z Thread) (p : ThreadPool) :=
  mkThreadPool (f (threads_ p)) (initThreadSize_ p) (idleThreadSize_ p)
    (curThreadSize_ p) (threadSizeThreshHold_ p) (taskQue_ p) (taskSize_ p)
    (taskQueMaxThreshHold_ p) (poolMode_ p) (isPoolRunning_ p).
Definition set_initThreadSize (v : Z) (p : ThreadPool) :=
  mkThreadPool (threads_ p) v (idleThreadSize_ p)
    (curThreadSize_ p) (threadSizeThreshHold_ p) (taskQue_ p) (taskSize_ p)
    (taskQueMaxThreshHold_ p) (poolMode_ p) (isPoolRunning_ p).
Definition set_idleThreadSize (f : Z -> Z) (p : ThreadPool) :=
  mkThreadPool (threads_ p) (initThreadSize_ p) (Int.to_uint (f (idleThreadSize_ p)))
    (curThreadSize_ p) (threadSizeThreshHold_ p) (taskQue_ p) (taskSize_ p)
    (taskQueMaxThreshHold_ p) (poolMode_ p) (isPoolRunning_ p).
Definition set_curThreadSize (f : Z -> Z) (p : ThreadPool) :=
  mkThreadPool (threads_ p) (initThreadSize_ p) (idleThreadSize_ p)
    (Int.to_uint (f (curThreadSize_ p))) (threadSizeThreshHold_ p) (taskQue_ p)
    (taskSize_ p) (taskQueMaxThreshHold_ p) (poolMode_ p) (isPoolRunning_ p).
Definition set_threadSizeThreshHold (v : Z) (p : ThreadPool) :=
  mkThreadPool (threads_ p) (initThreadSize_ p) (idleThreadSize_ p)
    (curThreadSize_ p) (Int.to_size_t v) (taskQue_ p) (taskSize_ p)
    (taskQueMaxThreshHold_ p) (poolMode_ p) (isPoolRunning_ p).
Definition set_taskQue (f : list (option Z) -> list (option Z)) (p : ThreadPool) :=
  mkThreadPool (threads_ p) (initThreadSize_ p) (idleThreadSize_ p)
    (curThreadSize_ p) (threadSizeThreshHold_ p) (f (taskQue_ p)) (taskSize_ p)
    (taskQueMaxThreshHold_ p) (poolMode_ p) (isPoolRunning_ p).
Definition set_taskSize (f : Z -> Z) (p : ThreadPool) :=
  mkThreadPool (threads_ p) (initThreadSize_ p) (idleThreadSize_ p)
    (curThreadSize_ p) (threadSizeThreshHold_ p) (taskQue_ p)
    (Int.to_uint (f (taskSize_ p))) (taskQueMaxThreshHold_ p) (poolMode_ p)
    (isPoolRunning_ p).
Definition set_taskQueMaxThreshHold (v : Z) (p : ThreadPool) :=
  mkThreadPool (threads_ p) (initThreadSize_ p) (idleThreadSize_ p)
    (curThreadSize_ p) (threadSizeThreshHold_ p) (taskQue_ p) (taskSize_ p)
    (Int.to_size_t v) (poolMode_ p) (isPoolRunning_ p).
Definition set_poolMode (v : PoolMode) (p : ThreadPool) :=
  mkThreadPool (threads_ p) (initThreadSize_ p) (idleThreadSize_ p)
    (curThreadSize_ p) (threadSizeThreshHold_ p) (taskQue_ p) (taskSize_ p)
    (taskQueMaxThreshHold_ p) v (isPoolRunning_ p).
Definition set_isPoolRunning (v : bool) (p : ThreadPool) :=
  mkThreadPool (threads_ p) (initThreadSize_ p) (idleThreadSize_ p)
    (curThreadSize_ p) (threadSizeThreshHold_ p) (taskQue_ p) (taskSize_ p)
    (taskQueMaxThreshHold_ p) (poolMode_ p) v.

(** [ThreadPool::ThreadPool()] *)
Definition ThreadPool_ctor : ThreadPool :=
  {| threads_ := ∅;
     initThreadSize_ := 0;
     idleThreadSize_ := 0;
     curThreadSize_ := 0;
     threadSizeThreshHold_ := THREAD_MAX_THRESHHOLD;
     taskQue_ := [];
     taskSize_ := 0;
     taskQueMaxThreshHold_ := TASK_MAX_THRESHHOLD;
     poolMode_ := MODE_FIXED;
     isPoolRunning_ := false |}.

Definition chackRunningState (p : ThreadPool) : bool := isPoolRunning_ p.

(** [void ThreadPool::setTaskQueMaxThreshHold(int threshhold)] *)
Definition setTaskQueMaxThreshHold (threshhold : Z) (p : ThreadPool) : ThreadPool :=
  if chackRunningState p then p else set_taskQueMaxThreshHold threshhold p.

(** [void ThreadPool::setThreadSizeThreshHold(int threshhold)] *)
Definition setThreadSizeThreshHold (threshhold : Z) (p : ThreadPool) : ThreadPool :=
  if chackRunningState p then p
  else if decide (poolMode_ p = MODE_CACHED) then set_threadSizeThreshHold threshhold p
  else p.

(** [void ThreadPool::setMode(PoolMode mode)] *)
Definition setMode (mode : PoolMode) (p : ThreadPool) : ThreadPool :=
  if chackRunningState p then p else set_poolMode mode p.

(** The first statement of [ThreadPool::~ThreadPool()]; the destructor then
    waits for [threads_.size() == 0]. *)
Definition ThreadPool_dtor_begin (p : ThreadPool) : ThreadPool :=
  set_isPoolRunning false p.

Definition ThreadPool_dtor_may_return (p : ThreadPool) : bool :=
  bool_decide (size (threads_ p) = 0%nat).

(** ** The process

    Besides the pool, the process holds the static counter
    [Thread::generateId_], the stores of [Task] and [Result] objects, the
    detached OS threads running [ThreadPool::threadFunc], the state of the
    user's code, and a log of what happened to the tasks. *)

(** Where a thread running [threadFunc] stands. *)
Inductive pc :=
  | LoopHead                          (* about to test [while(isPoolRunning_)] *)
  | Waiting                           (* inside [notEmpty_.wait] / [wait_for] *)
  | Executing (task : option Z)       (* lock released, [task] dequeued *)
  | Exited
  | Entered.                          (* [isPoolRunning_] read as true, about
                                         to test [taskQue_.size() == 0] *)

Record Worker := mkWorker { threadId : Z; at_pc : pc }.

(** What a wait on [notEmpty_] reports when the thread resumes:
    [cv_status::no_timeout], or [cv_status::timeout] together with the
    seconds elapsed since [lastTime]. *)
Inductive wake := no_timeout | timeout (dur : Z).

Inductive event :=
  | Enqueued (sp : option Z)
  | Dequeued (threadId : Z) (task : option Z)
  | Executed (threadId : Z) (task : Z).

(** The tasks put into the queue, taken out of it, and handed to
    [Task::exec], in the order in which that happened. *)
Definition enqueued (h : list event) : list (option Z) :=
  omap (λ e, match e with Enqueued sp => Some sp | _ => None end) h.

Definition dequeued (h : list event) : list (option Z) :=
  omap (λ e, match e with Dequeued _ task => Some task | _ => None end) h.

Definition executed (h : list event) : list Z :=
  omap (λ e, match e with Executed _ a => Some a | _ => None end) h.

(** The task that a thread has dequeued and not yet finished. *)
Definition in_hand (c : pc) : list (option Z) :=
  match c with
  | Executing task => [task]
  | _ => []
  end.

(** The number of threads that have read [isPoolRunning_] as true and
    have not yet tested the queue. *)
Definition is_Entered (c : pc) : bool :=
  match c with
  | Entered => true
  | _ => false
  end.

Fixpoint entered (ws : list Worker) : nat :=
  match ws with
  | [] => 0%nat
  | w :: ws' => ((if is_Entered (at_pc w) then 1 else 0) + entered ws')%nat
  end.

(** With at most one thread, every dequeued task has been executed,
    except the one the thread holds. *)
Definition single_thread_order (ws : list Worker) (h : list event) : Prop :=
  match ws with
  | [] => dequeued h = [] /\ executed h = []
  | [w] => dequeued h = (Some <$> executed h) ++ in_hand (at_pc w)
  | _ => True
  end.

Section Process.
Context `{UserCode}.

Record Process := mkProcess {
  pool : ThreadPool;
  generateId_ : Z;                    (* static int Thread::generateId_ *)
  tasks : gmap Z Task;
  results : gmap Z Result;
  osThreads : list Worker;
  world : World;
  history : list event                (* oldest first *)
}.

Definition upd_pool (f : ThreadPool -> ThreadPool) (s : Process) : Process :=
  mkProcess (f (pool s)) (generateId_ s) (tasks s) (results s) (osThreads s)
    (world s) (history s).
Definition set_generateId (g : Z) (s : Process) : Process :=
  mkProcess (pool s) g (tasks s) (results s) (osThreads s) (world s) (history s).
Definition upd_tasks (f : gmap Z Task -> gmap Z Task) (s : Process) : Process :=
  mkProcess (pool s) (generateId_ s) (f (tasks s)) (results s) (osThreads s)
    (world s) (history s).
Definition upd_results (f : gmap Z Result -> gmap Z Result) (s : Process) : Process :=
  mkProcess (pool s) (generateId_ s) (tasks s) (f (results s)) (osThreads s)
    (world s) (history s).
Definition upd_osThreads (f : list Worker -> list Worker) (s : Process) : Process :=
  mkProcess (pool s) (generateId_ s) (tasks s) (results s) (f (osThreads s))
    (world s) (history s).
Definition set_world (w : World) (s : Process) : Process :=
  mkProcess (pool s) (generateId_ s) (tasks s) (results s) (osThreads s) w
    (history s).
Definition log (e : event) (s : Process) : Process :=
  mkProcess (pool s) (generateId_ s) (tasks s) (results s) (osThreads s)
    (world s) (history s ++ [e]).

(** The process before [main]: a default-constructed pool, no objects. *)
Definition initial (w : World) : Process :=
  mkProcess ThreadPool_ctor 0 ∅ ∅ [] w [].

(** [Result::Result(shared_ptr<Task> task, bool isValid)], constructing the
    object at address [this]; [task_->setResult(this)] dereferences [task]. *)
Definition Result_ctor (this : Z) (task : option Z) (isValid : bool)
    (s : Process) : option Process :=
  a ← task;
  t ← tasks s !! a;
  Some (upd_tasks <[a := Task_setResult (Some this) t]>
         (upd_results <[this := mkResult Any_default (Semaphore_ctor 0) task isValid]> s)).

(** [void Task::exec()] on the task at address [this]. *)
Definition Task_exec (this : Z) (s : Process) : option Process :=
  t ← tasks s !! this;
  match result_ t with
  | None => Some s
  | Some res =>
      let '(any, w') := run t (world s) in
      r ← results s !! res;
      r' ← Result_setVal any r;
      Some (upd_results <[res := r']> (set_world w' s))
  end.

(** [void Thread::start()]: a detached thread running [func_(threadId_)]. *)
Definition Thread_start (t : Thread) (s : Process) : Process :=
  upd_osThreads (λ l, l ++ [mkWorker (threadId_ t) LoopHead]) s.

(** [unordered_map::insert] and [emplace] keep an existing entry. *)
Definition umap_insert (k : Z) (v : Thread) (m : gmap Z Thread) : gmap Z Thread :=
  match m !! k with
  | Some _ => m
  | None => <[k := v]> m
  end.

(** *** [condition_variable::wait_for(lock, rel_time, pred)]

    [s] is the state when the call is made, [wakeups] the states found at
    each wake-up before the time is over, [at_timeout] the state found
    when it is.  The result is the state in which the call returns and
    the value it returns. *)
Fixpoint wait_for {S : Type} (pred : S -> bool) (s : S) (wakeups : list S)
    (at_timeout : S) : S * bool :=
  if pred s then (s, true)
  else match wakeups with
       | [] => (at_timeout, pred at_timeout)
       | s' :: rest => wait_for pred s' rest at_timeout
       end.

(** *** [ThreadPool::submitTask] *)

(** [taskQue_.size() < taskQueMaxThreshHold_] *)
Definition notFull (s : Process) : bool :=
  Z.of_nat (length (taskQue_ (pool s))) <? taskQueMaxThreshHold_ (pool s).

(** Lines 72-73: [taskQue_.emplace(sp); taskSize_++]. *)
Definition enqueue (sp : option Z) (s : Process) : Process :=
  log (Enqueued sp)
    (upd_pool (λ p, set_taskSize Z.succ (set_taskQue (λ q, q ++ [sp]) p)) s).

(** The condition of line 79. *)
Definition must_grow (p : ThreadPool) : bool :=
  (idleThreadSize_ p <? taskSize_ p)
  && bool_decide (poolMode_ p = MODE_CACHED)
  && (curThreadSize_ p <? threadSizeThreshHold_ p).

(** Lines 83-91. *)
Definition grow (s : Process) : option Process :=
  '(ptr, g') ← Thread_ctor (generateId_ s);
  let threadId := getId ptr in
  let threads' := umap_insert threadId ptr (threads_ (pool s)) in
  th ← threads' !! threadId;
  Some (upd_pool (λ p, set_idleThreadSize Z.succ
                         (set_curThreadSize Z.succ (set_threads (λ _, threads') p)))
         (Thread_start th (set_generateId g' s))).

(** The body of [submitTask] once [wait_for] has returned [true]. *)
Definition submit_admitted (sp : option Z) (ret : Z) (s : Process) : option Process :=
  let s1 := enqueue sp s in
  s2 ← (if must_grow (pool s1) then grow s1 else Some s1);
  Result_ctor ret sp true s2.

(** [Result ThreadPool::submitTask(shared_ptr<Task> sp)].  The returned
    [Result] is constructed in the caller's storage at address [ret]. *)
Definition submitTask (sp : option Z) (ret : Z) (s : Process)
    (wakeups : list Process) (at_timeout : Process) : option Process :=
  let '(s', admitted) := wait_for notFull s wakeups at_timeout in
  if negb admitted then Result_ctor ret sp false s'
  else submit_admitted sp ret s'.

(** *** [ThreadPool::start] *)

(** [for(int i = 0; i < n; i++) body(i)] with [k] iterations left. *)
Fixpoint for_loop (i : Z) (k : nat) (body : Z -> Process -> option Process)
    (s : Process) : option Process :=
  match k with
  | O => Some s
  | S k' => s' ← body i s; for_loop (i + 1) k' body s'
  end.

(** Lines 111-115. *)
Definition start_create (i : Z) (s : Process) : option Process :=
  '(ptr, g') ← Thread_ctor (generateId_ s);
  let threadId := getId ptr in
  Some (upd_pool (λ p, set_curThreadSize Z.succ
                         (set_threads (umap_insert threadId ptr) p))
         (set_generateId g' s)).

(** Lines 121-122; [threads_[i]] of an absent key yields a null pointer. *)
Definition start_launch (i : Z) (s : Process) : option Process :=
  th ← threads_ (pool s) !! i;
  Some (upd_pool (set_idleThreadSize Z.succ) (Thread_start th s)).

Definition start (initThreadSize : Z) (s : Process) : option Process :=
  let s0 := upd_pool (λ p, set_initThreadSize initThreadSize
                             (set_isPoolRunning true p)) s in
  let n := Z.to_nat (initThreadSize_ (pool s0)) in
  s1 ← for_loop 0 n start_create s0;
  for_loop 0 n start_launch s1.

(** *** [ThreadPool::threadFunc], one resumption at a time *)

Definition set_pc (k : nat) (c : pc) (s : Process) : Process :=
  upd_osThreads (alter (λ w, mkWorker (threadId w) c) k) s.

(** Lines 178-191: [idleThreadSize_--; task = front(); pop(); taskSize_--]. *)
Definition take_task (k : nat) (w : Worker) (s : Process) : option Process :=
  match taskQue_ (pool s) with
  | [] => None
  | task :: rest =>
      Some (set_pc k (Executing task)
             (log (Dequeued (threadId w) task)
               (upd_pool (λ p, set_taskSize Z.pred
                                 (set_taskQue (λ _, rest)
                                   (set_idleThreadSize Z.pred p))) s)))
  end.

(** Lines 155-160. *)
Definition reap (k : nat) (w : Worker) (s : Process) : Process :=
  set_pc k Exited
    (upd_pool (λ p, set_idleThreadSize Z.pred
                      (set_curThreadSize Z.pred
                        (set_threads (delete (threadId w)) p))) s).

(** Lines 173-175 and 204-205. *)
Definition exit_thread (k : nat) (w : Worker) (s : Process) : Process :=
  set_pc k Exited (upd_pool (set_threads (delete (threadId w))) s).

(** Lines 144-149: timed out, idle for long enough, and more threads than
    at the start. *)
Definition must_reap (ev : wake) (p : ThreadPool) : bool :=
  match ev with
  | no_timeout => false
  | timeout dur =>
      (THREAD_MAX_IDLE_TIME <=? dur)
      && (Int.to_uint (initThreadSize_ p) <? curThreadSize_ p)
  end.

(** Lines 194-201. *)
Definition run_task (k : nat) (w : Worker) (task : option Z) (s : Process)
    : option Process :=
  s' ← match task with
       | None => Some s
       | Some a => log (Executed (threadId w) a) <$> Task_exec a s
       end;
  Some (set_pc k LoopHead (upd_pool (set_idleThreadSize Z.succ) s')).

(** Thread [k] runs, with no other thread in between, from where it
    stands to its next wait, to the end of the critical section, or to its
    exit; [ev] is what its wait reported.  A thread at [Entered] has read
    [isPoolRunning_] before and does not read it again. *)
Definition threadFunc (k : nat) (ev : wake) (s : Process) : option Process :=
  w ← osThreads s !! k;
  let p := pool s in
  match at_pc w with
  | LoopHead =>
      if isPoolRunning_ p then
        if bool_decide (length (taskQue_ p) = 0%nat)
        then Some (set_pc k Waiting s)
        else take_task k w s
      else Some (exit_thread k w s)
  | Waiting =>
      if bool_decide (poolMode_ p = MODE_CACHED) && must_reap ev p
      then Some (reap k w s)
      else if negb (isPoolRunning_ p) then Some (exit_thread k w s)
      else if bool_decide (length (taskQue_ p) = 0%nat) then Some s
      else take_task k w s
  | Executing task => run_task k w task s
  | Exited => None
  | Entered =>
      if bool_decide (length (taskQue_ p) = 0%nat)
      then Some (set_pc k Waiting s)
      else take_task k w s
  end.

(** Thread [k] reads [isPoolRunning_] as true, at line 129 or, woken up
    with nothing to reap, at line 171, and other threads run before it
    goes on: the flag is read outside [taskQueMtx_] at line 129, and the
    destructor writes it without holding the mutex. *)
Definition threadFunc_pass (k : nat) (s : Process) : option Process :=
  w ← osThreads s !! k;
  match at_pc w with
  | LoopHead | Waiting =>
      if isPoolRunning_ (pool s) then Some (set_pc k Entered s) else None
  | _ => None
  end.

(** *** Predicates on states *)

(** The [Result] at [ret] has the given validity and is paired with the
    task at [a]: it holds the task, and the task points back to it. *)
Definition bound_handle (ret a : Z) (valid : bool) (s : Process) : Prop :=
  (exists r, results s !! ret = Some r /\ isValid_ r = valid /\ task_ r = Some a
             /\ any_ r = Any_default /\ sem_ r = Semaphore_ctor 0)
  /\ (exists t, tasks s !! a = Some t /\ result_ t = Some ret).

(** The part of the state that [start] leaves alone. *)
Definition same_tasks_side (s s' : Process) : Prop :=
  taskQue_ (pool s') = taskQue_ (pool s)
  /\ taskSize_ (pool s') = taskSize_ (pool s)
  /\ taskQueMaxThreshHold_ (pool s') = taskQueMaxThreshHold_ (pool s)
  /\ threadSizeThreshHold_ (pool s') = threadSizeThreshHold_ (pool s)
  /\ poolMode_ (pool s') = poolMode_ (pool s)
  /\ history s' = history s
  /\ tasks s' = tasks s
  /\ results s' = results s
  /\ world s' = world s.

(** What the types of the fields guarantee: the unsigned counters are in
    range, and every registered [Thread] sits under its own identifier,
    which the static counter has already passed. *)
Record wf (s : Process) : Prop := {
  wf_idle : 0 <= idleThreadSize_ (pool s) < Int.UINT_MODULUS;
  wf_cur : 0 <= curThreadSize_ (pool s) < Int.UINT_MODULUS;
  wf_taskSize : 0 <= taskSize_ (pool s) < Int.UINT_MODULUS;
  wf_generateId : 0 <= generateId_ s;
  wf_threads : forall k th, threads_ (pool s) !! k = Some th ->
                 threadId_ th = k /\ 0 <= k < generateId_ s
}.

(** What a resumed thread can do. *)
Inductive resumed (k : nat) (w : Worker) (s : Process) : Process -> Prop :=
  | resumed_waits :
      at_pc w = LoopHead \/ at_pc w = Waiting \/ at_pc w = Entered ->
      length (taskQue_ (pool s)) = 0%nat ->
      resumed k w s (set_pc k Waiting s)
  | resumed_takes task rest :
      at_pc w = LoopHead \/ at_pc w = Waiting \/ at_pc w = Entered ->
      taskQue_ (pool s) = task :: rest ->
      resumed k w s
        (set_pc k (Executing task)
          (log (Dequeued (threadId w) task)
            (upd_pool (λ p, set_taskSize Z.pred
                              (set_taskQue (λ _, rest)
                                (set_idleThreadSize Z.pred p))) s)))
  | resumed_reaps :
      at_pc w = Waiting ->
      resumed k w s (reap k w s)
  | resumed_exits :
      at_pc w = LoopHead \/ at_pc w = Waiting ->
      isPoolRunning_ (pool s) = false ->
      resumed k w s (exit_thread k w s)
  | resumed_skips :
      at_pc w = Executing None ->
      resumed k w s (set_pc k LoopHead (upd_pool (set_idleThreadSize Z.succ) s))
  | resumed_runs a s1 :
      at_pc w = Executing (Some a) ->
      Task_exec a s = Some s1 ->
      resumed k w s
        (set_pc k LoopHead
          (upd_pool (set_idleThreadSize Z.succ) (log (Executed (threadId w) a) s1))).

(** ** The transition system *)

Inductive action :=
  | MakeTask (a : Z) (run : World -> Any * World)  (* make_shared<MyTask>() at [a] *)
  | SetTaskQueMaxThreshHold (threshhold : Z)
  | SetThreadSizeThreshHold (threshhold : Z)
  | SetMode (mode : PoolMode)
  | Start (initThreadSize : Z)
  | SubmitTask (sp : option Z) (ret : Z)
  | GetResult (ret : Z)
  | Resume (k : nat) (ev : wake)
  | DestroyPool
  | Pass (k : nat).                   (* thread [k] is past its test of the flag *)

(** One step of the process; [None] when the call is ill-typed, blocks
    for ever in this state, has no value to return, or has undefined
    behaviour.  A [submitTask] that waits is the step taken in the state
    in which its wait ends. *)
Definition step (a : action) (s : Process) : option Process :=
  match a with
  | MakeTask a run =>
      match tasks s !! a with
      | Some _ => None
      | None => Some (upd_tasks <[a := Task_ctor run]> s)
      end
  | SetTaskQueMaxThreshHold t =>
      if Int.is_int t then Some (upd_pool (setTaskQueMaxThreshHold t) s) else None
  | SetThreadSizeThreshHold t =>
      if Int.is_int t then Some (upd_pool (setThreadSizeThreshHold t) s) else None
  | SetMode m => Some (upd_pool (setMode m) s)
  | Start n => if Int.is_int n then start n s else None
  | SubmitTask sp ret => submitTask sp ret s [] s
  | GetResult ret =>
      r ← results s !! ret;
      match Result_get r with
      | Done (_, r') => Some (upd_results <[ret := r']> s)
      | Blocked | Undefined => None
      end
  | Resume k ev => threadFunc k ev s
  | DestroyPool => Some (upd_pool ThreadPool_dtor_begin s)
  | Pass k => threadFunc_pass k s
  end.

Fixpoint steps (tr : list action) (s : Process) : option Process :=
  match tr with
  | [] => Some s
  | a :: tr' => s' ← step a s; steps tr' s'
  end.

(** The states reachable when every step taken satisfies [allowed]. *)
Inductive reachable_by (allowed : action -> Process -> Prop) (w : World)
    : Process -> Prop :=
  | reachable_initial : reachable_by allowed w (initial w)
  | reachable_step a s s' :
      reachable_by allowed w s -> allowed a s -> step a s = Some s' ->
      reachable_by allowed w s'.

Definition reachable : World -> Process -> Prop := reachable_by (λ _ _, True).

(** The pending count is the length of the queue, which is within the
    configured bound. *)
Definition queue_consistent (s : Process) : Prop :=
  taskSize_ (pool s) = Z.of_nat (length (taskQue_ (pool s)))
  /\ Z.of_nat (length (taskQue_ (pool s))) <= taskQueMaxThreshHold_ (pool s).



(** The configuration of the pool: mode, bound of the queue, threshold
    of the worker count. *)
Definition same_config (s s' : Process) : Prop :=
  poolMode_ (pool s') = poolMode_ (pool s)
  /\ taskQueMaxThreshHold_ (pool s') = taskQueMaxThreshHold_ (pool s)
  /\ threadSizeThreshHold_ (pool s') = threadSizeThreshHold_ (pool s).

(** The steps other than the destruction of the pool, and those that are
    neither [start] nor the destruction. *)
Definition not_destroy (a : action) : Prop :=
  match a with
  | DestroyPool => False
  | _ => True
  end.

Definition workload (a : action) : Prop :=
  match a with
  | DestroyPool | Start _ => False
  | _ => True
  end.

(** The steps that can follow the destruction of the pool: anything but
    a new [start] or a submission. *)
Definition after_teardown (a : action) : Prop :=
  match a with
  | Start _ | SubmitTask _ _ => False
  | _ => True
  end.

(** Every thread runs under an identifier that the static counter has
    passed. *)
Definition ids_below (s : Process) : Prop :=
  Forall (λ w, 0 <= threadId w < generateId_ s) (osThreads s).

(** The calls that configure the pool or make a task. *)
Definition configuring (a : action) : Prop :=
  match a with
  | MakeTask _ _ | SetTaskQueMaxThreshHold _ | SetThreadSizeThreshHold _
  | SetMode _ => True
  | _ => False
  end.

(** The tasks at the addresses [fst] are submitted one after the other,
    their [Result]s constructed at the addresses [snd]. *)
Definition submit_all (subs : list (Z * Z)) : list action :=
  (λ x, SubmitTask (Some x.1) x.2) <$> subs.

(** Tasks leave the queue in the order in which they entered it. *)
Record fifo (s : Process) : Prop := {
  fifo_queue : dequeued (history s) ++ taskQue_ (pool s) = enqueued (history s);
  fifo_some : Forall is_Some (enqueued (history s));
  fifo_single : single_thread_order (osThreads s) (history s)
}.

End Process.

(** ** A concrete user program

    Tasks that return an [int] and append it to a shared output. *)

Module Demo.

Inductive type := T_int | T_bool | T_const_char_ptr.

#[global] Instance type_eq_dec : EqDecision type.
Proof. solve_decision. Defined.

Definition value (t : type) : Type :=
  match t with
  | T_int => Z
  | T_bool => bool
  | T_const_char_ptr => string
  end.

#[global] Instance code : UserCode := {|
  ctype := type;
  cval := value;
  const_char_ptr := T_const_char_ptr;
  c_str := λ s, s;
  World := list Z
|}.

(** A task whose [run] appends [n] to the output and returns an [Any]
    holding the [int] [n]. *)
Definition tagged (n : Z) : World -> Any * World :=
  λ out, (Any_holding T_int n, out ++ [n]).

End Demo.

Module DemoObjects.
Import Demo.

(** The [Result] of a rejected submission of the task at address 10. *)
Definition rejected : Result :=
  mkResult Any_default (Semaphore_ctor 0) (Some 10) false.

(** A process whose only object is an unbound task writing 7. *)
Definition one_unbound_task : Process :=
  upd_tasks <[10 := Task_ctor (tagged 7)]> (initial []).

(** A process in which the task at 10 is bound to a [Result] at 100. *)
Definition one_bound_task : Process :=
  upd_results <[100 := mkResult Any_default (Semaphore_ctor 0) (Some 10) true]>
    (upd_tasks <[10 := mkTask (Some 100) (tagged 7)]> (initial [])).

End DemoObjects.

(** Scenarios on the demo program, used as concrete inputs below. *)
Module Scenario.
Import Demo.

Definition after (tr : list action) : Process :=
  default (initial []) (steps tr (initial [])).

(** Two tasks, a queue bound of 1, and the first task submitted. *)
Definition fill : list action :=
  [MakeTask 10 (tagged 1); MakeTask 11 (tagged 2);
   SetTaskQueMaxThreshHold 1; SubmitTask (Some 10) 100].

Definition full : Process := after fill.

(** Then one worker is started and takes the task. *)
Definition drained : Process :=
  after (fill ++ [Start 1; Resume 0 no_timeout]).


(** One worker and three tasks, submitted in the order 1, 2, 3 and run
    to the end. *)
Definition three_in_order : list action :=
  [MakeTask 10 (tagged 1); MakeTask 11 (tagged 2); MakeTask 12 (tagged 3);
   Start 1;
   SubmitTask (Some 10) 100; SubmitTask (Some 11) 101;
   Resume 0 no_timeout;
   SubmitTask (Some 12) 102;
   Resume 0 no_timeout; Resume 0 no_timeout; Resume 0 no_timeout;
   Resume 0 no_timeout; Resume 0 no_timeout].

(** One worker is started and waits; the pool is destroyed; the worker
    wakes up and leaves. *)
Definition shutdown : list action :=
  [Start 1; Resume 0 no_timeout; DestroyPool; Resume 0 no_timeout].

(** A pool started with two workers. *)
Definition started : Process := after [Start 2].

(** Calls of the three setters, a task and its submission. *)
Definition reconfigure : list action :=
  [SetMode MODE_CACHED; SetTaskQueMaxThreshHold 5; SetThreadSizeThreshHold 5;
   MakeTask 10 (tagged 1); SubmitTask (Some 10) 100; Resume 0 no_timeout].

(** Cached mode, one initial worker and one more created by a submission;
    both wait for tasks. *)
Definition grow_then_idle : list action :=
  [SetMode MODE_CACHED; Start 1; Resume 0 no_timeout;
   MakeTask 10 (tagged 1); MakeTask 11 (tagged 2);
   SubmitTask (Some 10) 100; SubmitTask (Some 11) 101;
   Resume 0 no_timeout; Resume 1 no_timeout;
   Resume 0 no_timeout; Resume 1 no_timeout;
   Resume 0 no_timeout; Resume 1 no_timeout].

Definition grown : Process := after grow_then_idle.

(** Then task 10 is submitted again and both workers time out after a
    minute. *)
Definition more_load : list action :=
  [SubmitTask (Some 10) 102; Resume 0 (timeout 60); Resume 1 (timeout 60)].

(** Two workers started and two tasks queued; worker 0 reads the flag,
    then the pool is destroyed. *)
Definition torn_down : Process :=
  after [Start 2; MakeTask 10 (tagged 1); MakeTask 11 (tagged 2);
         SubmitTask (Some 10) 100; SubmitTask (Some 11) 101;
         Pass 0; DestroyPool].

(** What may follow: the workers are scheduled, a task is made, a setter
    is called. *)
Definition aftermath : list action :=
  [Resume 1 (timeout 61); Resume 0 no_timeout; MakeTask 12 (tagged 3);
   SetMode MODE_CACHED; SetTaskQueMaxThreshHold 0; Resume 0 no_timeout].

(** In cached mode a submission before [start] creates worker 0, which
    finds the pool stopped and leaves. *)
Definition early_worker : list action :=
  [SetMode MODE_CACHED; MakeTask 10 (tagged 1); SubmitTask (Some 10) 100;
   Resume 0 no_timeout].

(** One worker at the head of the loop, nothing queued, one task made. *)
Definition ready : Process := after [Start 1; MakeTask 10 (tagged 1)].

(** One task bound to a [Result] and queued, one worker at the head of
    the loop. *)
Definition queued : list action :=
  [Start 1; MakeTask 10 (tagged 1); SubmitTask (Some 10) 100].

(** Three tasks and a queue bounded by 2, in fixed mode. *)
Definition three_tasks : Process :=
  after [MakeTask 10 (tagged 1); MakeTask 11 (tagged 2); MakeTask 12 (tagged 3);
         SetTaskQueMaxThreshHold 2].

(** Cached mode with one task made, nothing started. *)
Definition cached : Process :=
  after [SetMode MODE_CACHED; MakeTask 10 (tagged 1)].

(** Cached mode with a threshold of 2: two tasks are submitted before
    the pool is started, each creating a worker; then [start(1)]. *)
Definition over_threshold : list action :=
  [SetMode MODE_CACHED; SetThreadSizeThreshHold 2;
   MakeTask 10 (tagged 1); MakeTask 11 (tagged 2);
   SubmitTask (Some 10) 100; SubmitTask (Some 11) 101; Start 1].

(** Cached mode with a threshold of 2 and three tasks made; nothing is
    started yet. *)
Definition configure_cached : list action :=
  [SetMode MODE_CACHED; SetThreadSizeThreshHold 2;
   MakeTask 10 (tagged 1); MakeTask 11 (tagged 2); MakeTask 12 (tagged 3)].

(** Three submissions after the start, the workers scheduled in between. *)
Definition busy : list action :=
  [SubmitTask (Some 10) 100; SubmitTask (Some 11) 101; Resume 0 no_timeout;
   SubmitTask (Some 12) 102; Resume 1 no_timeout].

(** A started pool whose queue, bounded by 1, holds task 10; tasks 11 and
    12 belong to two producers. *)
Definition contended : list action :=
  [MakeTask 10 (tagged 1); MakeTask 11 (tagged 2); MakeTask 12 (tagged 3);
   SetTaskQueMaxThreshHold 1; Start 1; SubmitTask (Some 10) 100].

Definition full_running : Process := after contended.

(** The worker takes task 10: there is room in the queue. *)
Definition freed : Process := after (contended ++ [Resume 0 no_timeout]).

(** The producer of task 12 gets the mutex first and fills the queue
    again. *)
Definition refilled : Process :=
  after (contended ++ [Resume 0 no_timeout; SubmitTask (Some 12) 102]).

(** A pool started twice with two workers. *)
Definition started_twice : list action := [Start 2; Start 2].

End Scenario.

(** * Properties *)

(** ** Machine integers *)

Module IntFacts.
Import Int.

Lemma to_uint_small z : 0 <= z < UINT_MODULUS -> to_uint z = z.
Proof. intros. unfold to_uint. apply Z.mod_small. assumption. Qed.

Lemma to_size_t_small z : 0 <= z < SIZE_MODULUS -> to_size_t z = z.
Proof. intros. unfold to_size_t. apply Z.mod_small. assumption. Qed.

Lemma to_uint_range z : 0 <= to_uint z < UINT_MODULUS.
Proof. unfold to_uint. apply Z.mod_pos_bound. reflexivity. Qed.

Lemma to_size_t_range z : 0 <= to_size_t z < SIZE_MODULUS.
Proof. unfold to_size_t. apply Z.mod_pos_bound. reflexivity. Qed.

Lemma is_int_spec z : is_int z = true <-> INT32_MIN <= z <= INT32_MAX.
Proof. unfold is_int. rewrite andb_true_iff, !Z.leb_le. tauto. Qed.

Lemma to_size_t_int z :
  is_int z = true -> 0 <= z -> to_size_t z = z /\ z < UINT_MODULUS.
Proof.
  intros Hi Hz. apply is_int_spec in Hi.
  unfold INT32_MAX, UINT_MODULUS in *. split; [|lia].
  apply to_size_t_small. unfold SIZE_MODULUS. lia.
Qed.

(** Incrementing an unsigned counter never yields more than one above it. *)
Lemma to_uint_succ_le z : 0 <= z -> to_uint (Z.succ z) <= z + 1.
Proof.
  intros Hz. unfold to_uint.
  pose proof (Z.mod_le (Z.succ z) UINT_MODULUS) as Hle.
  unfold UINT_MODULUS in *. lia.
Qed.

Lemma to_uint_pred z : 0 < z < UINT_MODULUS -> to_uint (Z.pred z) = z - 1.
Proof. intros. rewrite to_uint_small; unfold UINT_MODULUS in *; lia. Qed.

Lemma to_uint_succ z : 0 <= z < UINT_MODULUS - 1 -> to_uint (Z.succ z) = z + 1.
Proof. intros. rewrite to_uint_small; unfold UINT_MODULUS in *; lia. Qed.

End IntFacts.

(** ** [Any] *)

Section AnyFacts.
Context `{UserCode}.

Lemma dynamic_cast_same (T : ctype) (v : cval T) :
  dynamic_cast T (Some (mkDerive T v)) = Some v.
Proof.
  unfold dynamic_cast. cbn.
  destruct (decide (T = T)) as [e|n]; [|contradiction].
  f_equal. rewrite (proof_irrel e eq_refl). reflexivity.
Qed.

Lemma dynamic_cast_other (T U : ctype) (v : cval T) :
  U <> T -> dynamic_cast U (Some (mkDerive T v)) = None.
Proof.
  intros Hne. unfold dynamic_cast. cbn.
  destruct (decide (T = U)) as [e|n]; [|reflexivity].
  exfalso. apply Hne. symmetry. exact e.
Qed.

(** [cast] on an object that holds a [Derive<T>]: [cast<T>()] returns the
    value held, [cast<U>()] for any other type [U] throws the C string
    ["type is unmatch!"], and so does every cast of an object that holds
    nothing. *)
Lemma cast_of_holding (T : ctype) (v : cval T) :
  cast T (Any_holding T v) = Returned v
  /\ (forall U : ctype, U <> T ->
        cast U (Any_holding T v) = Thrown "type is unmatch!")
  /\ (forall U : ctype, cast U Any_default = Thrown "type is unmatch!").
Proof.
  unfold cast, Any_holding, Any_default. cbn [base_].
  split; [|split].
  - rewrite dynamic_cast_same. reflexivity.
  - intros U Hne. rewrite dynamic_cast_other by exact Hne. reflexivity.
  - intros U. reflexivity.
Qed.

End AnyFacts.

(** C7. Storing a value does not work: for [Any a(5)] the constructor
    template builds no object, as for every other value of every type,
    so that storing 5 and casting to [int] does not return 5.  [cast]
    itself is as the round trip needs it: on an object that holds a
    [Derive<int>] with 5 it returns 5 for [int] and throws for [bool],
    and it throws on an object that holds nothing. *)
Theorem Any_of_stores_nothing :
  Any_of (H := Demo.code) Demo.T_int 5 = None
  /\ (Any_of (H := Demo.code) Demo.T_int 5
        ≫= λ a, Some (cast (H := Demo.code) Demo.T_int a)) <> Some (Returned 5)
  /\ (forall (T : Demo.type) (v : Demo.value T), Any_of (H := Demo.code) T v = None)
  /\ cast (H := Demo.code) Demo.T_int (Any_holding (H := Demo.code) Demo.T_int 5)
     = Returned 5
  /\ cast (H := Demo.code) Demo.T_bool (Any_holding (H := Demo.code) Demo.T_int 5)
     = Thrown "type is unmatch!"
  /\ (forall U : Demo.type,
        cast (H := Demo.code) U Any_default = Thrown "type is unmatch!").
Proof.
  destruct (cast_of_holding (H := Demo.code) Demo.T_int 5)
    as (Hsame & Hother & Hempty).
  split; [reflexivity|]. split; [discriminate|]. split; [reflexivity|].
  split; [exact Hsame|]. split; [apply Hother; discriminate|exact Hempty].
Qed.

(** ** [Semaphore] *)

Lemma Semaphore_wait_positive (s : Semaphore) :
  0 < resLimit_ s ->
  Semaphore_wait s = Done (mkSemaphore (resLimit_ s - 1)).
Proof. intros Hpos. unfold Semaphore_wait. apply Z.ltb_lt in Hpos. rewrite Hpos. reflexivity. Qed.

Lemma Semaphore_wait_blocks (s : Semaphore) :
  resLimit_ s <= 0 -> Semaphore_wait s = Blocked.
Proof.
  intros Hle. unfold Semaphore_wait.
  destruct (0 <? resLimit_ s) eqn:E; [apply Z.ltb_lt in E; lia|reflexivity].
Qed.

Lemma Semaphore_post_increments (s : Semaphore) :
  resLimit_ s < Int.INT32_MAX ->
  Semaphore_post s = Some (mkSemaphore (resLimit_ s + 1)).
Proof.
  intros Hlt. unfold Semaphore_post, Int.int_incr.
  apply Z.ltb_lt in Hlt. rewrite Hlt. reflexivity.
Qed.

(** The count never becomes negative: [wait] only takes from a positive
    count, [post] only adds. *)
Lemma Semaphore_count_nonneg (s : Semaphore) :
  0 <= resLimit_ s ->
  (forall s', Semaphore_wait s = Done s' -> 0 <= resLimit_ s')
  /\ (forall s', Semaphore_post s = Some s' -> 0 <= resLimit_ s').
Proof.
  intros Hnn. split; intros s'.
  - unfold Semaphore_wait. destruct (0 <? resLimit_ s) eqn:E; [|discriminate].
    intros [= <-]. cbn. apply Z.ltb_lt in E. lia.
  - unfold Semaphore_post, Int.int_incr.
    destruct (resLimit_ s <? Int.INT32_MAX); cbn; [|discriminate].
    intros [= <-]. cbn. lia.
Qed.

(** C9. The constructor does not use its argument: [Semaphore(3)] starts
    with the count 0, as does every other [Semaphore(limit)]; from there
    [wait] blocks, and after one [post] it returns with the count back at 0. *)
Theorem Semaphore_ctor_ignores_limit :
  resLimit_ (Semaphore_ctor 3) = 0
  /\ resLimit_ (Semaphore_ctor 3) <> 3
  /\ (forall limit, resLimit_ (Semaphore_ctor limit) = 0)
  /\ Semaphore_wait (Semaphore_ctor 3) = Blocked
  /\ (Semaphore_post (Semaphore_ctor 3) ≫= λ s, Some (Semaphore_wait s))
     = Some (Done (mkSemaphore 0)).
Proof. repeat split; try reflexivity. discriminate. Qed.

(** ** [Result::get] and [Task::exec] *)

Section ObjectFacts.
Context `{UserCode}.

(** On a [Result] constructed with the validity flag false, [get()] goes
    to [return ""] whatever the count of the semaphore, and does not wait:
    its outcome is that of the conversion of the literal. *)
Lemma Result_get_invalid_no_wait (r : Result) :
  isValid_ r = false ->
  Result_get r <> Blocked
  /\ Result_get r
     = match Any_of const_char_ptr (c_str EmptyString) with
       | Some any => Done (any, r)
       | None => Undefined
       end.
Proof.
  intros Hinv. unfold Result_get. rewrite Hinv. cbn. split; [discriminate|reflexivity].
Qed.

Lemma Result_get_valid_blocks (r : Result) :
  isValid_ r = true -> resLimit_ (sem_ r) <= 0 -> Result_get r = Blocked.
Proof.
  intros Hv Hle. unfold Result_get. rewrite Hv. cbn.
  rewrite Semaphore_wait_blocks by exact Hle. reflexivity.
Qed.

Lemma Result_setVal_posts (any : Any) (r : Result) :
  resLimit_ (sem_ r) < Int.INT32_MAX ->
  Result_setVal any r
  = Some (mkResult any (mkSemaphore (resLimit_ (sem_ r) + 1)) (task_ r) (isValid_ r)).
Proof.
  intros Hlt. unfold Result_setVal.
  rewrite Semaphore_post_increments by exact Hlt. reflexivity.
Qed.

(** C8, as the code has it.  [exec] on a task bound to a live [Result]
    calls [run] once and hands its output to that [Result] through
    [setVal] (the value is stored, the semaphore posted).  On a task
    with no [Result] bound, [exec] does nothing: [run] is not called. *)
Theorem Task_exec_bound_or_not (this : Z) (t : Task) (s : Process) :
  tasks s !! this = Some t ->
  (forall res r,
      result_ t = Some res -> results s !! res = Some r ->
      resLimit_ (sem_ r) < Int.INT32_MAX ->
      exists r',
        Result_setVal (run t (world s)).1 r = Some r'
        /\ any_ r' = (run t (world s)).1
        /\ resLimit_ (sem_ r') = resLimit_ (sem_ r) + 1
        /\ Task_exec this s
           = Some (upd_results <[res := r']> (set_world (run t (world s)).2 s)))
  /\ (result_ t = None -> Task_exec this s = Some s).
Proof.
  intros Ht. split.
  - intros res r Hres Hr Hlt.
    eexists. split; [apply Result_setVal_posts; exact Hlt|].
    split; [reflexivity|]. split; [reflexivity|].
    unfold Task_exec. rewrite Ht. cbn. rewrite Hres.
    destruct (run t (world s)) as [any w'] eqn:Hrun. cbn.
    rewrite Hr. cbn. rewrite Result_setVal_posts by exact Hlt. reflexivity.
  - intros Hnone. unfold Task_exec. rewrite Ht. cbn. rewrite Hnone. reflexivity.
Qed.

End ObjectFacts.

(** C2. [get()] on the [Result] of a rejected submission returns no empty
    [Any]: it does not wait, whatever the semaphore and the value of the
    object, but the [Any] that [return ""] needs is one that the
    constructor template does not build, so the call has no value to
    return. *)
Theorem Result_get_invalid_returns_nothing :
  isValid_ DemoObjects.rejected = false
  /\ Result_get DemoObjects.rejected = Undefined
  /\ (forall r', Result_get DemoObjects.rejected <> Done (Any_default, r'))
  /\ Any_of (H := Demo.code) Demo.T_const_char_ptr EmptyString = None
  /\ (forall any sem task,
        Result_get (H := Demo.code) (mkResult any sem task false) = Undefined).
Proof.
  split; [reflexivity|]. split; [reflexivity|]. split; [discriminate|].
  split; reflexivity.
Qed.

(** C8 fails as stated: [exec] on the unbound task leaves the user's
    state as it was, while a call of [run] would have written 7. *)
Lemma Task_exec_unbound_does_not_run :
  (tasks DemoObjects.one_unbound_task !! 10) ≫= result_ = None
  /\ Task_exec 10 DemoObjects.one_unbound_task = Some DemoObjects.one_unbound_task
  /\ world DemoObjects.one_unbound_task = []
  /\ (Demo.tagged 7 (world DemoObjects.one_unbound_task)).2 = [7].
Proof. repeat split; vm_compute; reflexivity. Qed.

Lemma Task_exec_bound_or_not_witness :
  exists r',
    any_ r' = Any_holding (H := Demo.code) Demo.T_int 7
    /\ resLimit_ (sem_ r') = 1
    /\ Task_exec 10 DemoObjects.one_bound_task
       = Some (upd_results <[100 := r']> (set_world [7] DemoObjects.one_bound_task)).
Proof.
  destruct (Task_exec_bound_or_not (H := Demo.code) 10
              (mkTask (Some 100) (Demo.tagged 7)) DemoObjects.one_bound_task)
    as [Hbound _]; [reflexivity|].
  destruct (Hbound 100 (mkResult Any_default (Semaphore_ctor 0) (Some 10) true))
    as (r' & _ & Hany & Hsem & Hexec); [reflexivity|reflexivity|reflexivity|].
  exists r'. split; [exact Hany|]. split; [exact Hsem|exact Hexec].
Defined.

(** ** Configuration *)

Lemma setThreadSizeThreshHold_cached (t : Z) (p : ThreadPool) :
  isPoolRunning_ p = false -> poolMode_ p = MODE_CACHED ->
  setThreadSizeThreshHold t p = set_threadSizeThreshHold t p.
Proof.
  intros Hrun Hmode. unfold setThreadSizeThreshHold, chackRunningState.
  rewrite Hrun. rewrite decide_True by exact Hmode. reflexivity.
Qed.

Lemma setThreadSizeThreshHold_fixed (t : Z) (p : ThreadPool) :
  poolMode_ p = MODE_FIXED -> setThreadSizeThreshHold t p = p.
Proof.
  intros Hmode. unfold setThreadSizeThreshHold, chackRunningState.
  destruct (isPoolRunning_ p); [reflexivity|].
  rewrite decide_False; [reflexivity|]. rewrite Hmode. discriminate.
Qed.

(** C10. On a pool that has not been started, [setThreadSizeThreshHold(t)]
    stores [t] (converted to [size_t], which is [t] itself when [t] is not
    negative) as the threshold when the mode is cached, and changes nothing
    else; when the mode is fixed, as it is after construction, the call
    changes nothing, so that a threshold set before [setMode(MODE_CACHED)]
    is lost. *)
Theorem setThreadSizeThreshHold_needs_cached (t : Z) (p : ThreadPool) :
  isPoolRunning_ p = false ->
  (poolMode_ p = MODE_CACHED ->
     setThreadSizeThreshHold t p = set_threadSizeThreshHold t p
     /\ threadSizeThreshHold_ (setThreadSizeThreshHold t p) = Int.to_size_t t
     /\ (Int.is_int t = true -> 0 <= t ->
         threadSizeThreshHold_ (setThreadSizeThreshHold t p) = t))
  /\ (poolMode_ p = MODE_FIXED ->
        setThreadSizeThreshHold t p = p
        /\ threadSizeThreshHold_ (setMode MODE_CACHED (setThreadSizeThreshHold t p))
           = threadSizeThreshHold_ p
        /\ poolMode_ (setMode MODE_CACHED (setThreadSizeThreshHold t p)) = MODE_CACHED)
  /\ poolMode_ ThreadPool_ctor = MODE_FIXED
  /\ isPoolRunning_ ThreadPool_ctor = false.
Proof.
  intros Hrun. split; [|split; [|split; reflexivity]].
  - intros Hmode. rewrite setThreadSizeThreshHold_cached by assumption.
    split; [reflexivity|]. split; [reflexivity|].
    intros Hint Hnn. cbn. apply IntFacts.to_size_t_int; assumption.
  - intros Hmode. rewrite setThreadSizeThreshHold_fixed by assumption.
    split; [reflexivity|].
    unfold setMode, chackRunningState. rewrite Hrun. split; reflexivity.
Qed.

(** On the pool as constructed: the threshold stays at 100 in fixed mode
    and becomes 8 once the mode is cached. *)
Lemma setThreadSizeThreshHold_needs_cached_witness :
  threadSizeThreshHold_ (setMode MODE_CACHED (setThreadSizeThreshHold 8 ThreadPool_ctor))
  = THREAD_MAX_THRESHHOLD
  /\ threadSizeThreshHold_
       (setThreadSizeThreshHold 8 (setMode MODE_CACHED ThreadPool_ctor)) = 8.
Proof.
  split.
  - destruct (setThreadSizeThreshHold_needs_cached 8 ThreadPool_ctor)
      as (_ & Hfixed & _); [reflexivity|].
    destruct Hfixed as (_ & Hkeep & _); [reflexivity|]. exact Hkeep.
  - destruct (setThreadSizeThreshHold_needs_cached 8 (setMode MODE_CACHED ThreadPool_ctor))
      as (Hcached & _); [reflexivity|].
    destruct Hcached as (_ & _ & Hval); [reflexivity|].
    apply Hval; [reflexivity|lia].
Defined.

(** ** [wait_for] *)

Section WaitFor.
Context {S : Type} (pred : S -> bool).

(** The predicate never held: the call returns [false] when the time is
    over, in the state found then. *)
Lemma wait_for_timed_out (s : S) (wakeups : list S) (at_timeout : S) :
  Forall (λ x, pred x = false) (s :: wakeups ++ [at_timeout]) ->
  wait_for pred s wakeups at_timeout = (at_timeout, false).
Proof.
  revert s. induction wakeups as [|s' rest IH]; intros s Hall; cbn in *.
  - inversion Hall as [|? ? Hs Hrest]; subst.
    inversion Hrest as [|? ? Ht _]; subst.
    rewrite Hs, Ht. reflexivity.
  - inversion Hall as [|? ? Hs Hrest]; subst.
    rewrite Hs. apply IH. exact Hrest.
Qed.

(** The predicate held at some point: the call returns [true] in the first
    state in which the waiting thread finds it to hold. *)
Lemma wait_for_satisfied (s : S) (wakeups : list S) (at_timeout : S) :
  Exists (λ x, pred x = true) (s :: wakeups ++ [at_timeout]) ->
  exists before s1 after,
    s :: wakeups ++ [at_timeout] = before ++ s1 :: after
    /\ Forall (λ x, pred x = false) before
    /\ pred s1 = true
    /\ wait_for pred s wakeups at_timeout = (s1, true).
Proof.
  revert s. induction wakeups as [|s' rest IH]; intros s Hex; cbn in *.
  - destruct (pred s) eqn:Hs.
    + exists [], s, [at_timeout]. repeat split; auto.
    + inversion Hex as [? ? Hhd|? ? Htl]; subst; [congruence|].
      inversion Htl as [? ? Hhd|? ? Hnil]; subst; [|inversion Hnil].
      exists [s], at_timeout, []. rewrite Hhd. repeat split; auto.
  - destruct (pred s) eqn:Hs.
    + exists [], s, (s' :: rest ++ [at_timeout]). repeat split; auto.
    + inversion Hex as [? ? Hhd|? ? Htl]; subst; [congruence|].
      destruct (IH s' Htl) as (before & s1 & after & Heq & Hbefore & Hs1 & Hwait).
      exists (s :: before), s1, after. rewrite Heq. repeat split; auto.
Qed.

End WaitFor.

(** ** [submitTask] *)

Section SubmitFacts.
Context `{UserCode}.

Lemma Result_ctor_binds (this a : Z) (t : Task) (isValid : bool) (s : Process) :
  tasks s !! a = Some t ->
  exists s',
    Result_ctor this (Some a) isValid s = Some s'
    /\ bound_handle this a isValid s'
    /\ pool s' = pool s /\ history s' = history s
    /\ generateId_ s' = generateId_ s /\ osThreads s' = osThreads s
    /\ world s' = world s.
Proof.
  intros Ht. unfold Result_ctor. cbn. rewrite Ht. cbn.
  eexists. split; [reflexivity|]. split; [|repeat split].
  split.
  - eexists. cbn. rewrite lookup_insert_eq. repeat split.
  - eexists. cbn. rewrite lookup_insert_eq. split; reflexivity.
Qed.

Lemma Result_ctor_null (this : Z) (isValid : bool) (s : Process) :
  Result_ctor this None isValid s = None.
Proof. reflexivity. Qed.

Lemma Result_ctor_frame (this : Z) (sp : option Z) (isValid : bool) (s s' : Process) :
  Result_ctor this sp isValid s = Some s' ->
  pool s' = pool s /\ history s' = history s
  /\ generateId_ s' = generateId_ s /\ osThreads s' = osThreads s
  /\ world s' = world s /\ is_Some sp.
Proof.
  unfold Result_ctor. destruct sp as [a|]; cbn; [|discriminate].
  destruct (tasks s !! a) as [t|]; cbn; [|discriminate].
  intros [= <-]. repeat split. eexists; reflexivity.
Qed.

Lemma umap_insert_lookup (k : Z) (v : Thread) (m : gmap Z Thread) :
  umap_insert k v m !! k = Some (default v (m !! k)).
Proof.
  unfold umap_insert. destruct (m !! k) as [v'|] eqn:E; cbn.
  - exact E.
  - apply lookup_insert_eq.
Qed.

Lemma umap_insert_fresh (k : Z) (v : Thread) (m : gmap Z Thread) :
  m !! k = None -> umap_insert k v m = <[k := v]> m.
Proof. intros E. unfold umap_insert. rewrite E. reflexivity. Qed.

(** What [grow] does, when the static counter can still be incremented. *)
Lemma grow_spec (s : Process) :
  generateId_ s < Int.INT32_MAX ->
  let g := generateId_ s in
  let threads' := umap_insert g (mkThread g) (threads_ (pool s)) in
  let th := default (mkThread g) (threads_ (pool s) !! g) in
  grow s
  = Some (upd_pool (λ p, set_idleThreadSize Z.succ
                           (set_curThreadSize Z.succ (set_threads (λ _, threads') p)))
           (Thread_start th (set_generateId (g + 1) s))).
Proof.
  intros Hlt. cbn zeta. unfold grow, Thread_ctor, Int.int_incr.
  apply Z.ltb_lt in Hlt. rewrite Hlt. cbn.
  rewrite umap_insert_lookup. reflexivity.
Qed.

Lemma grow_defined (s s' : Process) :
  grow s = Some s' -> generateId_ s < Int.INT32_MAX.
Proof.
  unfold grow, Thread_ctor, Int.int_incr.
  destruct (generateId_ s <? Int.INT32_MAX) eqn:E; cbn; [|discriminate].
  intros _. apply Z.ltb_lt. exact E.
Qed.

Lemma must_grow_spec (p : ThreadPool) :
  must_grow p = true
  <-> poolMode_ p = MODE_CACHED
      /\ idleThreadSize_ p < taskSize_ p
      /\ curThreadSize_ p < threadSizeThreshHold_ p.
Proof.
  unfold must_grow. rewrite !andb_true_iff, !Z.ltb_lt, bool_decide_eq_true.
  tauto.
Qed.

End SubmitFacts.

Section Admission.
Context `{UserCode}.

(** The body of [submitTask] past the wait: the task goes to the back of
    the queue, the counter is incremented, and a valid [Result] is bound. *)
Lemma submit_admitted_spec (a ret : Z) (t : Task) (s : Process) :
  tasks s !! a = Some t ->
  generateId_ s < Int.INT32_MAX ->
  exists s',
    submit_admitted (Some a) ret s = Some s'
    /\ taskQue_ (pool s') = taskQue_ (pool s) ++ [Some a]
    /\ taskSize_ (pool s') = Int.to_uint (Z.succ (taskSize_ (pool s)))
    /\ history s' = history s ++ [Enqueued (Some a)]
    /\ bound_handle ret a true s'.
Proof.
  intros Ht Hg. unfold submit_admitted.
  destruct (must_grow (pool (enqueue (Some a) s))) eqn:Hgrow.
  - rewrite grow_spec by exact Hg. cbn [mbind option_bind].
    match goal with
    | |- context [Result_ctor ret (Some a) true ?s2] =>
        destruct (Result_ctor_binds ret a t true s2 Ht)
          as (s' & Hctor & Hbound & Hpool & Hhist & _)
    end.
    exists s'. split; [exact Hctor|].
    rewrite Hpool, Hhist. repeat (split; [reflexivity|]). exact Hbound.
  - cbn [mbind option_bind].
    destruct (Result_ctor_binds ret a t true (enqueue (Some a) s) Ht)
      as (s' & Hctor & Hbound & Hpool & Hhist & _).
    exists s'. split; [exact Hctor|].
    rewrite Hpool, Hhist. repeat (split; [reflexivity|]). exact Hbound.
Qed.

(** C1, as the code has it.  A [submitTask] call that finds the queue
    full in every state it
    observes during the wait (at the call, at each wake-up, and when the
    second is over) returns a [Result] constructed as invalid and bound
    to the task, and leaves the pool (queue and pending count included)
    as it found it: the task is not enqueued.  A call that finds room in
    one of these states pushes the task to the back of the queue as it
    is then, increments the pending count, and returns a valid [Result]
    bound to the task.  (The task object is alive throughout, and
    [Thread::generateId_] can still be incremented should the pool have
    to grow.) *)
Theorem submitTask_admission (a ret : Z) (t : Task)
    (s : Process) (wakeups : list Process) (at_timeout : Process) :
  (Forall (λ x, notFull x = false) (s :: wakeups ++ [at_timeout]) ->
   tasks at_timeout !! a = Some t ->
   exists s',
     submitTask (Some a) ret s wakeups at_timeout = Some s'
     /\ bound_handle ret a false s'
     /\ pool s' = pool at_timeout
     /\ taskQue_ (pool s') = taskQue_ (pool at_timeout)
     /\ taskSize_ (pool s') = taskSize_ (pool at_timeout)
     /\ history s' = history at_timeout)
  /\
  (Exists (λ x, notFull x = true) (s :: wakeups ++ [at_timeout]) ->
   Forall (λ x, tasks x !! a = Some t /\ generateId_ x < Int.INT32_MAX)
     (s :: wakeups ++ [at_timeout]) ->
   exists s1 s',
     s1 ∈ s :: wakeups ++ [at_timeout]
     /\ notFull s1 = true
     /\ submitTask (Some a) ret s wakeups at_timeout = Some s'
     /\ taskQue_ (pool s') = taskQue_ (pool s1) ++ [Some a]
     /\ taskSize_ (pool s') = Int.to_uint (Z.succ (taskSize_ (pool s1)))
     /\ (0 <= taskSize_ (pool s1) < Int.UINT_MODULUS - 1 ->
         taskSize_ (pool s') = taskSize_ (pool s1) + 1)
     /\ history s' = history s1 ++ [Enqueued (Some a)]
     /\ bound_handle ret a true s').
Proof.
  split.
  - intros Hfull Ht. unfold submitTask.
    rewrite (wait_for_timed_out notFull s wakeups at_timeout Hfull). cbn.
    destruct (Result_ctor_binds ret a t false at_timeout Ht)
      as (s' & Hctor & Hbound & Hpool & Hhist & _).
    exists s'. rewrite Hpool. repeat (split; [assumption || reflexivity|]). exact Hhist.
  - intros Hroom Hlive. unfold submitTask.
    destruct (wait_for_satisfied notFull s wakeups at_timeout Hroom)
      as (before & s1 & after & Heq & _ & Hs1 & Hwait).
    rewrite Hwait. cbn.
    assert (Hin : s1 ∈ s :: wakeups ++ [at_timeout]).
    { rewrite Heq. apply elem_of_app. right. apply elem_of_cons. left. reflexivity. }
    rewrite Forall_forall in Hlive. destruct (Hlive s1 Hin) as [Ht Hg].
    destruct (submit_admitted_spec a ret t s1 Ht Hg)
      as (s' & Hsub & Hque & Hsize & Hhist & Hbound).
    exists s1, s'. repeat (split; [assumption|]).
    split; [|split; assumption].
    intros Hrange. rewrite Hsize. apply IntFacts.to_uint_succ. exact Hrange.
Qed.

End Admission.

(** The second task submitted to the full queue: rejected when the queue
    is still full after the second, admitted when the worker has taken
    the first task by then. *)
Lemma submitTask_admission_witness :
  (exists s',
      submitTask (Some 11) 101 Scenario.full [Scenario.full] Scenario.full = Some s'
      /\ bound_handle 101 11 false s'
      /\ pool s' = pool Scenario.full)
  /\ (exists s1 s',
        notFull s1 = true
        /\ submitTask (Some 11) 101 Scenario.full [Scenario.full] Scenario.drained
           = Some s'
        /\ taskQue_ (pool s') = taskQue_ (pool s1) ++ [Some 11]
        /\ bound_handle 101 11 true s').
Proof.
  split.
  - destruct (submitTask_admission (H := Demo.code) 11 101 (Task_ctor (Demo.tagged 2))
                Scenario.full [Scenario.full] Scenario.full) as [Hrej _].
    destruct Hrej as (s' & Hsub & Hbound & Hpool & _).
    + repeat constructor.
    + reflexivity.
    + exists s'. repeat (split; [assumption|]). assumption.
  - destruct (submitTask_admission (H := Demo.code) 11 101 (Task_ctor (Demo.tagged 2))
                Scenario.full [Scenario.full] Scenario.drained) as [_ Hadm].
    destruct Hadm as (s1 & s' & _ & Hroom & Hsub & Hque & _ & _ & _ & Hbound).
    + apply Exists_cons_tl, Exists_cons_tl, Exists_cons_hd. reflexivity.
    + repeat constructor.
    + exists s1, s'. repeat (split; [assumption|]). assumption.
Defined.

(** C1 fails as stated: the queue is full when the call for task 11 is
    made.  Within the second the worker takes task 10, so that there is
    room; but the producer of task 12 has the mutex before the waiting
    call, and fills the queue again.  The call finds the queue full at
    its wake-up and when the second is over: it returns an invalid
    [Result], and task 11 is not enqueued. *)
Lemma submitTask_rejected_though_room_appeared :
  notFull Scenario.full_running = false
  /\ step (Resume 0 no_timeout) Scenario.full_running = Some Scenario.freed
  /\ notFull Scenario.freed = true
  /\ step (SubmitTask (Some 12) 102) Scenario.freed = Some Scenario.refilled
  /\ notFull Scenario.refilled = false
  /\ exists s',
       submitTask (Some 11) 101 Scenario.full_running [Scenario.refilled]
         Scenario.refilled = Some s'
       /\ (exists r, results s' !! 101 = Some r /\ isValid_ r = false)
       /\ taskQue_ (pool s') = [Some 12]
       /\ enqueued (history s') = [Some 10; Some 12].
Proof.
  split; [vm_compute; reflexivity|]. split; [vm_compute; reflexivity|].
  split; [vm_compute; reflexivity|]. split; [vm_compute; reflexivity|].
  split; [vm_compute; reflexivity|].
  destruct (submitTask (H := Demo.code) (Some 11) 101 Scenario.full_running
              [Scenario.refilled] Scenario.refilled) as [s'|] eqn:Hsub;
    [|vm_compute in Hsub; discriminate].
  exists s'. split; [reflexivity|].
  vm_compute in Hsub. injection Hsub as <-.
  split; [eexists; split; vm_compute; reflexivity|].
  split; vm_compute; reflexivity.
Qed.

(** ** How each step changes the state *)

Section StepFacts.
Context `{UserCode}.

Lemma for_loop_invariant (P : Process -> Prop) (body : Z -> Process -> option Process) :
  (forall i s s', P s -> body i s = Some s' -> P s') ->
  forall k i s s', P s -> for_loop i k body s = Some s' -> P s'.
Proof.
  intros Hbody. induction k as [|k IH]; intros i s s' HP Hloop; cbn in Hloop.
  - injection Hloop as <-. exact HP.
  - destruct (body i s) as [s1|] eqn:Hb; cbn in Hloop; [|discriminate].
    eapply IH; [|exact Hloop]. eapply Hbody; eassumption.
Qed.

Lemma Task_exec_frame (a : Z) (s s' : Process) :
  Task_exec a s = Some s' ->
  pool s' = pool s /\ generateId_ s' = generateId_ s
  /\ osThreads s' = osThreads s /\ history s' = history s
  /\ tasks s' = tasks s.
Proof.
  unfold Task_exec. intros Hexec.
  destruct (tasks s !! a) as [t|]; cbn in Hexec; [|discriminate].
  destruct (result_ t) as [res|]; [|injection Hexec as <-; auto].
  destruct (run t (world s)) as [any w'].
  destruct (results s !! res) as [r|]; cbn in Hexec; [|discriminate].
  destruct (Result_setVal any r) as [r'|]; cbn in Hexec; [|discriminate].
  injection Hexec as <-. auto.
Qed.

Lemma start_create_effect (i : Z) (s s' : Process) :
  start_create i s = Some s' ->
  s' = upd_pool (λ p, set_curThreadSize Z.succ
                        (set_threads (umap_insert (generateId_ s) (mkThread (generateId_ s))) p))
         (set_generateId (generateId_ s + 1) s)
  /\ generateId_ s < Int.INT32_MAX.
Proof.
  unfold start_create, Thread_ctor, Int.int_incr.
  destruct (generateId_ s <? Int.INT32_MAX) eqn:E; cbn; [|discriminate].
  intros [= <-]. split; [reflexivity|]. apply Z.ltb_lt. exact E.
Qed.

Lemma start_launch_effect (i : Z) (s s' : Process) :
  start_launch i s = Some s' ->
  exists th, threads_ (pool s) !! i = Some th
    /\ s' = upd_pool (set_idleThreadSize Z.succ) (Thread_start th s).
Proof.
  unfold start_launch. destruct (threads_ (pool s) !! i) as [th|]; cbn; [|discriminate].
  intros [= <-]. eauto.
Qed.

(** [start] runs its two loops from the pool marked as running. *)
Lemma start_loops (n : Z) (s s' : Process) (P : Process -> Prop) :
  (forall i x x', P x -> start_create i x = Some x' -> P x') ->
  (forall i x x', P x -> start_launch i x = Some x' -> P x') ->
  P (upd_pool (λ p, set_initThreadSize n (set_isPoolRunning true p)) s) ->
  start n s = Some s' -> P s'.
Proof.
  intros Hcreate Hlaunch Hinit. unfold start. cbn.
  destruct (for_loop 0 (Z.to_nat n) start_create _) as [s1|] eqn:H1; cbn; [|discriminate].
  intros H2.
  eapply (for_loop_invariant P); [exact Hlaunch| |exact H2].
  eapply (for_loop_invariant P); [exact Hcreate| |exact H1].
  exact Hinit.
Qed.

Lemma start_same_tasks_side (n : Z) (s s' : Process) :
  start n s = Some s' -> same_tasks_side s s'.
Proof.
  apply (start_loops n s s' (same_tasks_side s)).
  - intros i x x' Hx Hl. apply start_create_effect in Hl as [-> _]. exact Hx.
  - intros i x x' Hx Hl. apply start_launch_effect in Hl as (th & _ & ->). exact Hx.
  - repeat split.
Qed.

(** The threads that [start] adds all stand at the head of the loop. *)
Lemma start_osThreads (n : Z) (s s' : Process) :
  start n s = Some s' ->
  exists ws, osThreads s' = osThreads s ++ ws
             /\ Forall (λ w, at_pc w = LoopHead) ws.
Proof.
  apply (start_loops n s s'
           (λ x, exists ws, osThreads x = osThreads s ++ ws
                            /\ Forall (λ w, at_pc w = LoopHead) ws)).
  - intros i x x' Hx Hl. apply start_create_effect in Hl as [-> _]. exact Hx.
  - intros i x x' (ws & Hws & Hall) Hl.
    apply start_launch_effect in Hl as (th & _ & ->).
    exists (ws ++ [mkWorker (threadId_ th) LoopHead]). cbn. rewrite Hws.
    split; [rewrite app_assoc; reflexivity|].
    apply Forall_app. split; [exact Hall|]. repeat constructor.
  - exists []. cbn. rewrite app_nil_r. split; [reflexivity|constructor].
Qed.

(** The two ways in which a [submitTask] step ends. *)
Lemma step_submit_cases (sp : option Z) (ret : Z) (s s' : Process) :
  step (SubmitTask sp ret) s = Some s' ->
  (notFull s = false /\ Result_ctor ret sp false s = Some s')
  \/ (notFull s = true
      /\ exists s2,
           Result_ctor ret sp true s2 = Some s'
           /\ ((must_grow (pool (enqueue sp s)) = false /\ s2 = enqueue sp s)
               \/ (must_grow (pool (enqueue sp s)) = true
                   /\ grow (enqueue sp s) = Some s2))).
Proof.
  cbn. unfold submitTask. cbn.
  destruct (notFull s) eqn:Hroom; cbn; [|auto].
  unfold submit_admitted.
  destruct (must_grow (pool (enqueue sp s))) eqn:Hgrow; cbn.
  - destruct (grow (enqueue sp s)) as [s2|] eqn:Hg; cbn; [|discriminate].
    intros Hctor. right. split; [reflexivity|]. exists s2. auto.
  - intros Hctor. right. split; [reflexivity|]. exists (enqueue sp s). auto.
Qed.

Lemma set_pc_same (k : nat) (w : Worker) (s : Process) :
  osThreads s !! k = Some w -> set_pc k (at_pc w) s = s.
Proof.
  intros Hk. destruct s as [p g ts rs ws wd h]. unfold set_pc, upd_osThreads. cbn in *.
  f_equal. apply list_eq. intros i.
  destruct (decide (i = k)) as [->|Hne].
  - rewrite list_lookup_alter_eq, Hk. destruct w; reflexivity.
  - rewrite list_lookup_alter_ne by congruence. reflexivity.
Qed.

Lemma step_resume_cases (k : nat) (ev : wake) (s s' : Process) :
  step (Resume k ev) s = Some s' ->
  exists w, osThreads s !! k = Some w /\ resumed k w s s'.
Proof.
  cbn. unfold threadFunc.
  destruct (osThreads s !! k) as [w|] eqn:Hk; cbn; [|discriminate].
  intros Hstep. exists w. split; [reflexivity|].
  destruct (at_pc w) as [| |task| |] eqn:Hpc.
  - destruct (isPoolRunning_ (pool s)) eqn:Hrun.
    + case_bool_decide as Hlen.
      * injection Hstep as <-. apply resumed_waits; auto.
      * unfold take_task in Hstep.
        destruct (taskQue_ (pool s)) as [|task rest] eqn:Hq; [discriminate|].
        injection Hstep as <-. eapply resumed_takes; eauto.
    + injection Hstep as <-. apply resumed_exits; auto.
  - destruct (bool_decide (poolMode_ (pool s) = MODE_CACHED) && must_reap ev (pool s)).
    + injection Hstep as <-. apply resumed_reaps; auto.
    + destruct (isPoolRunning_ (pool s)) eqn:Hrun; cbn in Hstep.
      * case_bool_decide as Hlen.
        -- injection Hstep as <-.
           pose proof (resumed_waits k w s (or_intror (or_introl Hpc)) Hlen) as Hres.
           rewrite <- Hpc, (set_pc_same k w s Hk) in Hres. exact Hres.
        -- unfold take_task in Hstep.
           destruct (taskQue_ (pool s)) as [|task rest] eqn:Hq; [discriminate|].
           injection Hstep as <-. eapply resumed_takes; eauto.
      * injection Hstep as <-. apply resumed_exits; auto.
  - unfold run_task in Hstep. destruct task as [a|]; cbn in Hstep.
    + destruct (Task_exec a s) as [s1|] eqn:Hexec; cbn in Hstep; [|discriminate].
      injection Hstep as <-. eapply resumed_runs; eauto.
    + injection Hstep as <-. apply resumed_skips; auto.
  - discriminate.
  - case_bool_decide as Hlen.
    + injection Hstep as <-. apply resumed_waits; auto.
    + unfold take_task in Hstep.
      destruct (taskQue_ (pool s)) as [|task rest] eqn:Hq; [discriminate|].
      injection Hstep as <-. eapply resumed_takes; eauto.
Qed.

(** A thread gets past its test of the flag only while the pool runs,
    and nothing but its own position changes. *)
Lemma step_pass_cases (k : nat) (s s' : Process) :
  step (Pass k) s = Some s' ->
  exists w, osThreads s !! k = Some w
            /\ (at_pc w = LoopHead \/ at_pc w = Waiting)
            /\ isPoolRunning_ (pool s) = true
            /\ s' = set_pc k Entered s.
Proof.
  cbn. unfold threadFunc_pass.
  destruct (osThreads s !! k) as [w|] eqn:Hk; cbn; [|discriminate].
  intros Hstep. exists w. split; [reflexivity|].
  destruct (at_pc w); try discriminate;
    (destruct (isPoolRunning_ (pool s)); [|discriminate]);
    injection Hstep as <-; auto.
Qed.

End StepFacts.

(** ** Reachable states *)

Section Reachability.
Context `{UserCode}.

Lemma reachable_by_weaken (allowed : action -> Process -> Prop) (w : World) (s : Process) :
  reachable_by allowed w s -> reachable w s.
Proof.
  induction 1 as [|a s s' _ IH _ Hstep]; [constructor|].
  eapply reachable_step; [exact IH|exact I|exact Hstep].
Qed.

Lemma steps_reachable_from (w : World) (tr : list action) (s s' : Process) :
  reachable w s -> steps tr s = Some s' -> reachable w s'.
Proof.
  revert s. induction tr as [|a tr IH]; intros s Hs Hrun; cbn in Hrun.
  - injection Hrun as <-. exact Hs.
  - destruct (step a s) as [s1|] eqn:Hstep; cbn in Hrun; [|discriminate].
    apply (IH s1); [|exact Hrun].
    eapply reachable_step; [exact Hs|exact I|exact Hstep].
Qed.

Lemma steps_reachable (w : World) (tr : list action) (s : Process) :
  steps tr (initial w) = Some s -> reachable w s.
Proof. apply steps_reachable_from. constructor. Qed.

Lemma wf_frame (s s' : Process) :
  pool s' = pool s -> generateId_ s' = generateId_ s -> wf s -> wf s'.
Proof.
  intros Hp Hg [Hi Hc Ht Hgen Hth].
  split; rewrite ?Hp, ?Hg; assumption.
Qed.

Lemma wf_initial (w : World) : wf (initial w).
Proof.
  split; cbn; try (unfold Int.UINT_MODULUS; lia).
  intros k th Hk. rewrite lookup_empty in Hk. discriminate.
Qed.

Lemma wf_threads_insert (s : Process) (g' : Z) :
  wf s -> generateId_ s < g' ->
  forall k th,
    umap_insert (generateId_ s) (mkThread (generateId_ s)) (threads_ (pool s)) !! k = Some th ->
    threadId_ th = k /\ 0 <= k < g'.
Proof.
  intros Hwf Hlt k th Hk. unfold umap_insert in Hk.
  destruct (threads_ (pool s) !! generateId_ s) eqn:E.
  - destruct (wf_threads s Hwf k th Hk). lia.
  - rewrite lookup_insert in Hk. case_decide as Hdec.
    + subst k. injection Hk as <-. cbn. pose proof (wf_generateId s Hwf). lia.
    + destruct (wf_threads s Hwf k th Hk). lia.
Qed.

Lemma wf_threads_delete (s : Process) (i : Z) :
  wf s ->
  forall k th, delete i (threads_ (pool s)) !! k = Some th ->
               threadId_ th = k /\ 0 <= k < generateId_ s.
Proof.
  intros Hwf k th Hk. apply lookup_delete_Some in Hk as [_ Hk].
  exact (wf_threads s Hwf k th Hk).
Qed.

Lemma wf_enqueue (sp : option Z) (s : Process) : wf s -> wf (enqueue sp s).
Proof.
  intros [Hi Hc Ht Hgen Hth]. split; cbn; try assumption.
  apply IntFacts.to_uint_range.
Qed.

Lemma wf_grow (s s' : Process) : wf s -> grow s = Some s' -> wf s'.
Proof.
  intros Hwf Hgrow. pose proof (grow_defined s s' Hgrow) as Hlt.
  rewrite grow_spec in Hgrow by exact Hlt. injection Hgrow as <-.
  split; cbn; try apply IntFacts.to_uint_range.
  - exact (wf_taskSize s Hwf).
  - pose proof (wf_generateId s Hwf). lia.
  - apply (wf_threads_insert s _ Hwf). lia.
Qed.

Lemma wf_start (n : Z) (s s' : Process) : wf s -> start n s = Some s' -> wf s'.
Proof.
  intros Hwf. apply (start_loops n s s' wf).
  - intros i x x' Hx Hl. apply start_create_effect in Hl as [-> Hlt].
    split; cbn; try apply IntFacts.to_uint_range.
    + exact (wf_idle x Hx).
    + exact (wf_taskSize x Hx).
    + pose proof (wf_generateId x Hx). lia.
    + apply (wf_threads_insert x _ Hx). lia.
  - intros i x x' Hx Hl. apply start_launch_effect in Hl as (th & _ & ->).
    destruct Hx as [Hi Hc Ht Hgen Hth].
    split; cbn; try assumption. apply IntFacts.to_uint_range.
  - destruct Hwf as [Hi Hc Ht Hgen Hth]. split; cbn; assumption.
Qed.

Lemma wf_resumed (k : nat) (w : Worker) (s s' : Process) :
  wf s -> resumed k w s s' -> wf s'.
Proof.
  intros Hwf Hres.
  destruct Hres as [? ?|task rest ? ?|?|? ?|?|a s1 ? Hexec].
  - destruct Hwf. split; cbn; assumption.
  - split; cbn; try apply IntFacts.to_uint_range.
    + exact (wf_cur s Hwf).
    + exact (wf_generateId s Hwf).
    + exact (wf_threads s Hwf).
  - split; cbn; try apply IntFacts.to_uint_range.
    + exact (wf_taskSize s Hwf).
    + exact (wf_generateId s Hwf).
    + apply wf_threads_delete. exact Hwf.
  - split; cbn.
    + exact (wf_idle s Hwf).
    + exact (wf_cur s Hwf).
    + exact (wf_taskSize s Hwf).
    + exact (wf_generateId s Hwf).
    + apply wf_threads_delete. exact Hwf.
  - split; cbn; try apply IntFacts.to_uint_range.
    + exact (wf_cur s Hwf).
    + exact (wf_taskSize s Hwf).
    + exact (wf_generateId s Hwf).
    + exact (wf_threads s Hwf).
  - apply Task_exec_frame in Hexec as (Hp & Hg & _).
    split; cbn; rewrite ?Hp, ?Hg; try apply IntFacts.to_uint_range.
    + exact (wf_cur s Hwf).
    + exact (wf_taskSize s Hwf).
    + exact (wf_generateId s Hwf).
    + exact (wf_threads s Hwf).
Qed.

Lemma wf_step (a : action) (s s' : Process) : wf s -> step a s = Some s' -> wf s'.
Proof.
  intros Hwf Hstep. destruct a as [a run|t|t|m|n|sp ret|ret|k ev| |k].
  - cbn in Hstep. destruct (tasks s !! a); [discriminate|].
    injection Hstep as <-. revert Hwf. apply wf_frame; reflexivity.
  - cbn in Hstep. destruct (Int.is_int t); [|discriminate]. injection Hstep as <-.
    destruct Hwf as [Hi Hc Ht Hgen Hth].
    split; cbn; unfold setTaskQueMaxThreshHold;
      destruct (chackRunningState (pool s)); cbn; assumption.
  - cbn in Hstep. destruct (Int.is_int t); [|discriminate]. injection Hstep as <-.
    destruct Hwf as [Hi Hc Ht Hgen Hth].
    split; cbn; unfold setThreadSizeThreshHold;
      destruct (chackRunningState (pool s)); try case_decide; cbn; assumption.
  - cbn in Hstep. injection Hstep as <-.
    destruct Hwf as [Hi Hc Ht Hgen Hth].
    split; cbn; unfold setMode;
      destruct (chackRunningState (pool s)); cbn; assumption.
  - cbn in Hstep. destruct (Int.is_int n); [|discriminate].
    eapply wf_start; eassumption.
  - apply step_submit_cases in Hstep as [[_ Hctor]|(_ & s2 & Hctor & Hs2)].
    + apply Result_ctor_frame in Hctor as (Hp & _ & Hg & _).
      revert Hwf. apply wf_frame; assumption.
    + apply Result_ctor_frame in Hctor as (Hp & _ & Hg & _).
      apply (wf_frame s2); [assumption..|].
      destruct Hs2 as [[_ ->]|[_ Hgrow]].
      * apply wf_enqueue. exact Hwf.
      * eapply wf_grow; [|exact Hgrow]. apply wf_enqueue. exact Hwf.
  - cbn in Hstep. destruct (results s !! ret) as [r|]; cbn in Hstep; [|discriminate].
    destruct (Result_get r) as [[any r']| |]; [|discriminate..].
    injection Hstep as <-. revert Hwf. apply wf_frame; reflexivity.
  - apply step_resume_cases in Hstep as (w & _ & Hres).
    eapply wf_resumed; eassumption.
  - cbn in Hstep. injection Hstep as <-.
    destruct Hwf as [Hi Hc Ht Hgen Hth]. split; cbn; assumption.
  - apply step_pass_cases in Hstep as (w & _ & _ & _ & ->).
    revert Hwf. apply wf_frame; reflexivity.
Qed.

Lemma reachable_wf (w : World) (s : Process) : reachable w s -> wf s.
Proof.
  induction 1 as [|a s s' _ IH _ Hstep]; [apply wf_initial|].
  eapply wf_step; eassumption.
Qed.

(** No registered thread has the identifier that the next one will get. *)
Lemma wf_fresh (s : Process) : wf s -> threads_ (pool s) !! generateId_ s = None.
Proof.
  intros Hwf. destruct (threads_ (pool s) !! generateId_ s) as [th|] eqn:E; [|reflexivity].
  destruct (wf_threads s Hwf _ _ E). lia.
Qed.

End Reachability.

(** ** Growth of the pool in [submitTask] *)

Section Growth.
Context `{UserCode}.

(** In a reachable state, a [submitTask] call
    that has enqueued its task creates a worker exactly when the mode is
    cached, the pending count (the task just enqueued included) exceeds
    the idle count, and the current count is below the threshold.  It
    then creates one [Thread] with the next identifier, registers it,
    starts it, and increments the current and idle counts; otherwise it
    leaves the registry, the threads and both counts alone.  So a call
    never raises the current count above the threshold: if the count
    was at most the threshold before the call, it is so after it. *)
Lemma submitTask_growth (w : World) (sp : option Z) (ret : Z) (s s' : Process) :
  reachable w s ->
  submit_admitted sp ret s = Some s' ->
  let p1 := pool (enqueue sp s) in
  let g := generateId_ s in
  taskSize_ p1 = taskSize_ (pool s')
  /\ (must_grow p1 = true
      <-> poolMode_ (pool s) = MODE_CACHED
          /\ idleThreadSize_ (pool s) < taskSize_ p1
          /\ curThreadSize_ (pool s) < threadSizeThreshHold_ (pool s))
  /\ (must_grow p1 = true ->
        generateId_ s' = g + 1
        /\ threads_ (pool s') = <[g := mkThread g]> (threads_ (pool s))
        /\ size (threads_ (pool s')) = Datatypes.S (size (threads_ (pool s)))
        /\ osThreads s' = osThreads s ++ [mkWorker g LoopHead]
        /\ curThreadSize_ (pool s') = Int.to_uint (Z.succ (curThreadSize_ (pool s)))
        /\ idleThreadSize_ (pool s') = Int.to_uint (Z.succ (idleThreadSize_ (pool s)))
        /\ (threadSizeThreshHold_ (pool s) < Int.UINT_MODULUS ->
            curThreadSize_ (pool s') = curThreadSize_ (pool s) + 1))
  /\ (must_grow p1 = false ->
        generateId_ s' = g
        /\ threads_ (pool s') = threads_ (pool s)
        /\ osThreads s' = osThreads s
        /\ curThreadSize_ (pool s') = curThreadSize_ (pool s)
        /\ idleThreadSize_ (pool s') = idleThreadSize_ (pool s))
  /\ threadSizeThreshHold_ (pool s') = threadSizeThreshHold_ (pool s)
  /\ (curThreadSize_ (pool s) <= threadSizeThreshHold_ (pool s) ->
      curThreadSize_ (pool s') <= threadSizeThreshHold_ (pool s')).
Proof.
  intros Hreach Hsub p1 g. subst p1 g.
  pose proof (reachable_wf w s Hreach) as Hwf.
  pose proof (wf_fresh s Hwf) as Hfresh.
  pose proof (wf_cur s Hwf) as Hcur.
  unfold submit_admitted in Hsub.
  destruct (must_grow (pool (enqueue sp s))) eqn:Hgrow.
  - destruct (grow (enqueue sp s)) as [s2|] eqn:Hg; cbn in Hsub; [|discriminate].
    pose proof (grow_defined _ _ Hg) as Hlt.
    rewrite grow_spec in Hg by exact Hlt. injection Hg as <-.
    apply Result_ctor_frame in Hsub as (Hp & _ & Hgen & Hos & _).
    rewrite Hp, Hgen, Hos. cbn.
    apply must_grow_spec in Hgrow as Hcond. cbn in Hcond.
    destruct Hcond as (Hmode & Hidle & Hbelow).
    rewrite Hfresh. cbn.
    split; [reflexivity|]. split; [split; auto|].
    split; [|split; [intros; discriminate|]].
    + intros _. split; [reflexivity|].
      rewrite (umap_insert_fresh _ _ _ Hfresh).
      split; [reflexivity|].
      split; [apply map_size_insert_None; exact Hfresh|].
      repeat (split; [reflexivity|]).
      intros Hth. apply IntFacts.to_uint_succ. lia.
    + split; [reflexivity|]. intros _.
      pose proof (IntFacts.to_uint_succ_le (curThreadSize_ (pool s))). lia.
  - cbn in Hsub.
    apply Result_ctor_frame in Hsub as (Hp & _ & Hgen & Hos & _).
    rewrite Hp, Hgen, Hos. cbn.
    split; [reflexivity|]. split.
    + rewrite <- Hgrow. apply must_grow_spec.
    + split; [intros; discriminate|]. repeat split. auto.
Qed.

End Growth.

(** ** The queue and its counter *)

Section QueueInvariant.
Context `{UserCode}.



Lemma queue_consistent_frame (s s' : Process) :
  pool s' = pool s -> queue_consistent s -> queue_consistent s'.
Proof. unfold queue_consistent. intros ->. auto. Qed.






End QueueInvariant.



(** ** Order of the tasks *)

Section LogFacts.

Lemma enqueued_snoc (h : list event) (e : event) :
  enqueued (h ++ [e])
  = enqueued h ++ match e with Enqueued sp => [sp] | _ => [] end.
Proof. unfold enqueued. rewrite omap_app. destruct e; reflexivity. Qed.

Lemma dequeued_snoc (h : list event) (e : event) :
  dequeued (h ++ [e])
  = dequeued h ++ match e with Dequeued _ task => [task] | _ => [] end.
Proof. unfold dequeued. rewrite omap_app. destruct e; reflexivity. Qed.

Lemma executed_snoc (h : list event) (e : event) :
  executed (h ++ [e])
  = executed h ++ match e with Executed _ a => [a] | _ => [] end.
Proof. unfold executed. rewrite omap_app. destruct e; reflexivity. Qed.

(** New threads at the head of the loop hold no task. *)
Lemma single_thread_order_app (ws ws' : list Worker) (h : list event) :
  single_thread_order ws h ->
  Forall (λ w, at_pc w = LoopHead) ws' ->
  single_thread_order (ws ++ ws') h.
Proof.
  intros Hs Hall. destruct ws as [|w0 [|w1 ws]]; cbn in *.
  - destruct ws' as [|w0' [|w1' ws']]; cbn; auto.
    inversion Hall as [|? ? Hpc _]; subst. rewrite Hpc. cbn.
    destruct Hs as [-> ->]. reflexivity.
  - destruct ws' as [|w0' ws']; cbn; auto.
  - exact I.
Qed.

(** Thread [k] moves on: what has to hold of the log afterwards. *)
Lemma single_thread_order_alter (ws : list Worker) (k : nat) (w : Worker) (c : pc)
    (h h' : list event) :
  ws !! k = Some w ->
  single_thread_order ws h ->
  (dequeued h = (Some <$> executed h) ++ in_hand (at_pc w) ->
   dequeued h' = (Some <$> executed h') ++ in_hand c) ->
  single_thread_order (alter (λ w, mkWorker (threadId w) c) k ws) h'.
Proof.
  intros Hk Hs Hmove. destruct ws as [|w0 [|w1 ws]].
  - discriminate.
  - destruct k as [|k]; [|discriminate]. injection Hk as ->.
    cbn in *. auto.
  - destruct k as [|[|k]]; exact I.
Qed.

End LogFacts.

Section Fifo.
Context `{UserCode}.

Lemma fifo_frame (s s' : Process) :
  taskQue_ (pool s') = taskQue_ (pool s) -> history s' = history s ->
  osThreads s' = osThreads s -> fifo s -> fifo s'.
Proof. intros Hq Hh Ho [? ? ?]. split; rewrite ?Hq, ?Hh, ?Ho; assumption. Qed.

Lemma fifo_initial (w : World) : fifo (initial w).
Proof. split; cbn; auto. Qed.

(** A thread never holds a null task. *)
Lemma fifo_no_null_in_hand (s : Process) (w : Worker) :
  fifo s -> osThreads s = [w] -> at_pc w <> Executing None.
Proof.
  intros [Hq Hsome Hsingle] Hos Hpc. rewrite Hos in Hsingle. cbn in Hsingle.
  rewrite Hpc in Hsingle. cbn in Hsingle.
  rewrite <- Hq, Hsingle in Hsome.
  apply Forall_app in Hsome as [Hsome _]. apply Forall_app in Hsome as [_ Hnull].
  inversion Hnull as [|? ? [x Hx] _]. discriminate.
Qed.

Lemma fifo_enqueue (sp : option Z) (s : Process) :
  is_Some sp -> fifo s -> fifo (enqueue sp s).
Proof.
  intros Hsp [Hq Hsome Hsingle]. split; cbn.
  - rewrite enqueued_snoc, dequeued_snoc, app_nil_r, app_assoc, Hq. reflexivity.
  - rewrite enqueued_snoc. apply Forall_app. split; [exact Hsome|].
    constructor; [exact Hsp|constructor].
  - destruct (osThreads s) as [|w0 [|w1 ws]]; cbn in *; auto.
    + rewrite dequeued_snoc, executed_snoc, !app_nil_r. exact Hsingle.
    + rewrite dequeued_snoc, executed_snoc, !app_nil_r. exact Hsingle.
Qed.

Lemma fifo_grow (s s' : Process) : fifo s -> grow s = Some s' -> fifo s'.
Proof.
  intros [Hq Hsome Hsingle] Hgrow. pose proof (grow_defined _ _ Hgrow) as Hlt.
  rewrite grow_spec in Hgrow by exact Hlt. injection Hgrow as <-.
  split; cbn; try assumption.
  apply single_thread_order_app; [exact Hsingle|]. repeat constructor.
Qed.

Lemma fifo_start (n : Z) (s s' : Process) : fifo s -> start n s = Some s' -> fifo s'.
Proof.
  intros [Hq Hsome Hsingle] Hstart.
  destruct (start_same_tasks_side n s s' Hstart) as (Hque & _ & _ & _ & _ & Hh & _).
  destruct (start_osThreads n s s' Hstart) as (ws & Hos & Hall).
  split; rewrite ?Hque, ?Hh, ?Hos; try assumption.
  apply single_thread_order_app; assumption.
Qed.

Lemma fifo_resumed (k : nat) (w : Worker) (s s' : Process) :
  fifo s -> osThreads s !! k = Some w -> resumed k w s s' -> fifo s'.
Proof.
  intros Hfifo Hk Hres. pose proof Hfifo as [Hq Hsome Hsingle].
  destruct Hres as [Hpc ?|task rest Hpc Hque|Hpc|Hpc ?|Hpc|a s1 Hpc Hexec].
  - split; cbn; try assumption.
    apply (single_thread_order_alter _ k w _ (history s)); try assumption.
    destruct Hpc as [-> | [-> | ->]]; cbn; auto.
  - split; cbn.
    + rewrite enqueued_snoc, dequeued_snoc, app_nil_r, <- Hq, Hque, <- app_assoc.
      reflexivity.
    + rewrite enqueued_snoc, app_nil_r. exact Hsome.
    + apply (single_thread_order_alter _ k w _ (history s)); try assumption.
      rewrite dequeued_snoc, executed_snoc, app_nil_r. cbn.
      destruct Hpc as [-> | [-> | ->]]; cbn; rewrite !app_nil_r; intros ->; reflexivity.
  - split; cbn; try assumption.
    apply (single_thread_order_alter _ k w _ (history s)); try assumption.
    rewrite Hpc. cbn. auto.
  - split; cbn; try assumption.
    apply (single_thread_order_alter _ k w _ (history s)); try assumption.
    destruct Hpc as [-> | ->]; cbn; auto.
  - split; cbn; try assumption.
    destruct (osThreads s) as [|w0 [|w1 ws]] eqn:Hos.
    + discriminate.
    + destruct k as [|k]; [|discriminate]. injection Hk as ->.
      destruct (fifo_no_null_in_hand s w Hfifo Hos Hpc).
    + destruct k as [|[|k]]; exact I.
  - apply Task_exec_frame in Hexec as (Hp & _ & Hos & Hh & _).
    split; cbn; rewrite ?Hp, ?Hh, ?Hos.
    + rewrite enqueued_snoc, dequeued_snoc, !app_nil_r. exact Hq.
    + rewrite enqueued_snoc, app_nil_r. exact Hsome.
    + apply (single_thread_order_alter _ k w _ (history s)); try assumption.
      rewrite dequeued_snoc, executed_snoc, Hpc, !app_nil_r. cbn.
      rewrite fmap_app. intros ->. reflexivity.
Qed.

Lemma fifo_step (a : action) (s s' : Process) : fifo s -> step a s = Some s' -> fifo s'.
Proof.
  intros Hfifo Hstep. destruct a as [a run|t|t|m|n|sp ret|ret|k ev| |k].
  - cbn in Hstep. destruct (tasks s !! a); [discriminate|].
    injection Hstep as <-. revert Hfifo. apply fifo_frame; reflexivity.
  - cbn in Hstep. destruct (Int.is_int t); [|discriminate]. injection Hstep as <-.
    revert Hfifo. apply fifo_frame; try reflexivity.
    cbn. unfold setTaskQueMaxThreshHold. destruct (chackRunningState (pool s)); reflexivity.
  - cbn in Hstep. destruct (Int.is_int t); [|discriminate]. injection Hstep as <-.
    revert Hfifo. apply fifo_frame; try reflexivity.
    cbn. unfold setThreadSizeThreshHold.
    destruct (chackRunningState (pool s)); try case_decide; reflexivity.
  - cbn in Hstep. injection Hstep as <-.
    revert Hfifo. apply fifo_frame; try reflexivity.
    cbn. unfold setMode. destruct (chackRunningState (pool s)); reflexivity.
  - cbn in Hstep. destruct (Int.is_int n); [|discriminate].
    eapply fifo_start; eassumption.
  - apply step_submit_cases in Hstep as [[_ Hctor]|(_ & s2 & Hctor & Hs2)].
    + apply Result_ctor_frame in Hctor as (Hp & Hh & _ & Hos & _).
      revert Hfifo. apply fifo_frame; [rewrite Hp; reflexivity|assumption..].
    + apply Result_ctor_frame in Hctor as (Hp & Hh & _ & Hos & _ & Hsp).
      apply (fifo_frame s2); [rewrite Hp; reflexivity|assumption..|].
      destruct Hs2 as [[_ ->]|[_ Hgrow]].
      * apply fifo_enqueue; assumption.
      * eapply fifo_grow; [|exact Hgrow]. apply fifo_enqueue; assumption.
  - cbn in Hstep. destruct (results s !! ret) as [r|]; cbn in Hstep; [|discriminate].
    destruct (Result_get r) as [[any r']| |]; [|discriminate..].
    injection Hstep as <-. revert Hfifo. apply fifo_frame; reflexivity.
  - apply step_resume_cases in Hstep as (w & Hk & Hres).
    eapply fifo_resumed; eassumption.
  - cbn in Hstep. injection Hstep as <-.
    revert Hfifo. apply fifo_frame; reflexivity.
  - apply step_pass_cases in Hstep as (w & Hk & Hpc & _ & ->).
    destruct Hfifo as [Hq Hsome Hsingle]. split; cbn; try assumption.
    apply (single_thread_order_alter _ k w _ (history s)); try assumption.
    destruct Hpc as [-> | ->]; cbn; auto.
Qed.

Lemma reachable_fifo (w : World) (s : Process) : reachable w s -> fifo s.
Proof.
  induction 1 as [|a s s' _ IH _ Hstep]; [apply fifo_initial|].
  eapply fifo_step; eassumption.
Qed.

(** C6. In every reachable state, the tasks dequeued so far followed by
    the tasks still queued are the tasks enqueued by the successful
    [submitTask] calls, in the order of these calls: workers take the
    tasks in submission order.  With at most one thread running
    [threadFunc], the tasks executed so far are the first of the tasks
    submitted, in submission order, and all the dequeued ones but the one
    the thread may be holding. *)
Theorem fifo_order (w : World) (s : Process) :
  reachable w s ->
  dequeued (history s) ++ taskQue_ (pool s) = enqueued (history s)
  /\ dequeued (history s) `prefix_of` enqueued (history s)
  /\ ((length (osThreads s) <= 1)%nat ->
      (Some <$> executed (history s)) `prefix_of` dequeued (history s)
      /\ (Some <$> executed (history s)) `prefix_of` enqueued (history s)
      /\ (length (dequeued (history s))
          <= Datatypes.S (length (executed (history s))))%nat).
Proof.
  intros Hreach. destruct (reachable_fifo w s Hreach) as [Hq _ Hsingle].
  split; [exact Hq|].
  assert (Hdeq : dequeued (history s) `prefix_of` enqueued (history s)).
  { exists (taskQue_ (pool s)). symmetry. exact Hq. }
  split; [exact Hdeq|].
  intros Hone.
  assert (Hexe : (Some <$> executed (history s)) `prefix_of` dequeued (history s)
                 /\ (length (dequeued (history s))
                     <= Datatypes.S (length (executed (history s))))%nat).
  { destruct (osThreads s) as [|w0 [|w1 ws]]; cbn in Hsingle, Hone.
    - destruct Hsingle as [-> ->]. cbn. split; [reflexivity|lia].
    - rewrite Hsingle. split; [eexists; reflexivity|].
      rewrite length_app, length_fmap. destruct (at_pc w0); cbn; lia.
    - lia. }
  destruct Hexe as [Hexe Hlen].
  split; [exact Hexe|]. split; [|exact Hlen].
  etransitivity; eassumption.
Qed.

End Fifo.

(** One worker, tasks tagged 1, 2, 3 submitted in this order while the
    worker is running: they are executed in this order, as the shared
    output shows. *)
Lemma fifo_order_witness :
  exists s,
    steps Scenario.three_in_order (initial (H := Demo.code) []) = Some s
    /\ length (osThreads s) = 1%nat
    /\ enqueued (history s) = [Some 10; Some 11; Some 12]
    /\ executed (history s) = [10; 11; 12]
    /\ world s = [1; 2; 3]
    /\ (Some <$> executed (history s)) `prefix_of` enqueued (history s).
Proof.
  exists (Scenario.after Scenario.three_in_order).
  split; [vm_compute; reflexivity|].
  repeat (split; [vm_compute; reflexivity|]).
  destruct (fifo_order (H := Demo.code) []
              (Scenario.after Scenario.three_in_order)) as (_ & _ & Hone).
  - apply (steps_reachable (H := Demo.code) [] Scenario.three_in_order).
    vm_compute. reflexivity.
  - apply Hone. vm_compute. lia.
Defined.

(** ** The registry and the thread counters *)

Section Registry.
Context `{UserCode}.

(** A worker created by [submitTask] enters the registry and both
    counters. *)
Lemma grow_registry (s s' : Process) :
  wf s -> curThreadSize_ (pool s) < Int.UINT_MODULUS - 1 ->
  grow s = Some s' ->
  size (threads_ (pool s')) = Datatypes.S (size (threads_ (pool s)))
  /\ curThreadSize_ (pool s') = curThreadSize_ (pool s) + 1.
Proof.
  intros Hwf Hcur Hgrow. pose proof (grow_defined _ _ Hgrow) as Hlt.
  rewrite grow_spec in Hgrow by exact Hlt. injection Hgrow as <-. cbn.
  pose proof (wf_fresh s Hwf) as Hfresh.
  rewrite (umap_insert_fresh _ _ _ Hfresh). split.
  - apply map_size_insert_None. exact Hfresh.
  - apply IntFacts.to_uint_succ. pose proof (wf_cur s Hwf). lia.
Qed.

(** A thread reaped after its idle time leaves the registry and both
    counters. *)
Lemma reap_registry (k : nat) (w : Worker) (th : Thread) (s : Process) :
  threads_ (pool s) !! threadId w = Some th ->
  0 < curThreadSize_ (pool s) < Int.UINT_MODULUS ->
  size (threads_ (pool (reap k w s))) = pred (size (threads_ (pool s)))
  /\ curThreadSize_ (pool (reap k w s)) = curThreadSize_ (pool s) - 1.
Proof.
  intros Hth Hcur. cbn. split.
  - apply map_size_delete_Some. exists th. exact Hth.
  - apply IntFacts.to_uint_pred. exact Hcur.
Qed.

(** A thread leaving because the pool is not running leaves the registry
    only. *)
Lemma exit_thread_registry (k : nat) (w : Worker) (th : Thread) (s : Process) :
  threads_ (pool s) !! threadId w = Some th ->
  size (threads_ (pool (exit_thread k w s))) = pred (size (threads_ (pool s)))
  /\ curThreadSize_ (pool (exit_thread k w s)) = curThreadSize_ (pool s)
  /\ idleThreadSize_ (pool (exit_thread k w s)) = idleThreadSize_ (pool s).
Proof.
  intros Hth. cbn. split; [|split; reflexivity].
  apply map_size_delete_Some. exists th. exact Hth.
Qed.

End Registry.

(** C4.  A pool started with one worker and then destroyed: the worker
    wakes up, finds the pool stopped and erases itself from the
    registry; the registry is empty while the current count still says 1
    (and the idle count 1). *)
Theorem registry_smaller_than_count_after_shutdown :
  exists s,
    steps Scenario.shutdown (initial (H := Demo.code) []) = Some s
    /\ osThreads s = [mkWorker 0 Exited]
    /\ size (threads_ (pool s)) = 0%nat
    /\ curThreadSize_ (pool s) = 1
    /\ idleThreadSize_ (pool s) = 1
    /\ Z.of_nat (size (threads_ (pool s))) <> curThreadSize_ (pool s).
Proof.
  eexists. split; [vm_compute; reflexivity|].
  repeat (split; [reflexivity|]). discriminate.
Qed.

(** * Further properties of the code *)

(** ** Counting with the semaphore *)

Lemma posts_from (n : nat) (c : Z) :
  0 <= c -> c + Z.of_nat n <= Int.INT32_MAX ->
  posts n (mkSemaphore c) = Some (mkSemaphore (c + Z.of_nat n)).
Proof.
  revert c. induction n as [|n IH]; intros c Hc Hle; cbn [posts].
  - rewrite Z.add_0_r. reflexivity.
  - rewrite Semaphore_post_increments by (cbn; lia). cbn.
    rewrite IH by lia. do 2 f_equal. lia.
Qed.

Lemma waits_from (n : nat) (c : Z) :
  Z.of_nat n <= c -> waits n (mkSemaphore c) = Done (mkSemaphore (c - Z.of_nat n)).
Proof.
  revert c. induction n as [|n IH]; intros c Hle; cbn [waits].
  - rewrite Z.sub_0_r. reflexivity.
  - rewrite Semaphore_wait_positive by (cbn; lia). cbn.
    rewrite IH by lia. do 2 f_equal. lia.
Qed.

(** X13. Whatever [limit] the semaphore is constructed with, [n] calls of
    [post] (up to [INT32_MAX] of them) bring the count to [n] and let
    exactly [n] calls of [wait] through: the [n]-th leaves the count at
    0 and one more blocks. *)
Theorem Semaphore_posts_then_waits (limit : Z) (n : nat) :
  Z.of_nat n <= Int.INT32_MAX ->
  posts n (Semaphore_ctor limit) = Some (mkSemaphore (Z.of_nat n))
  /\ waits n (mkSemaphore (Z.of_nat n)) = Done (mkSemaphore 0)
  /\ waits (Datatypes.S n) (mkSemaphore (Z.of_nat n)) = Blocked.
Proof.
  intros Hle. split; [|split].
  - unfold Semaphore_ctor. rewrite posts_from by lia. reflexivity.
  - rewrite waits_from by lia. do 2 f_equal. lia.
  - replace (Datatypes.S n) with (n + 1)%nat by lia.
    assert (Hsplit : forall m s, waits (m + 1) s
                                 = match waits m s with
                                   | Done s' => waits 1 s'
                                   | Blocked => Blocked
                                   | Undefined => Undefined
                                   end).
    { induction m as [|m IH]; intros s; cbn [waits Nat.add].
      - destruct (Semaphore_wait s); reflexivity.
      - destruct (Semaphore_wait s) as [s'| |]; [apply IH|reflexivity..]. }
    rewrite Hsplit, waits_from by lia. cbn [waits].
    rewrite Semaphore_wait_blocks by (cbn; lia). reflexivity.
Qed.

Lemma Semaphore_posts_then_waits_witness :
  posts 3 (Semaphore_ctor 7) = Some (mkSemaphore 3)
  /\ waits 3 (mkSemaphore 3) = Done (mkSemaphore 0)
  /\ waits 4 (mkSemaphore 3) = Blocked.
Proof.
  apply (Semaphore_posts_then_waits 7 3). unfold Int.INT32_MAX. cbn. lia.
Defined.

(** ** The value of a task reaches [get] *)

Section Future.
Context `{UserCode}.

(** X3. On a valid [Result] whose semaphore is at 0, as after
    construction, [get] blocks.  After [setVal(v)], [get] returns [v]
    and leaves the stored value moved-from and the semaphore at 0 again,
    so that a second [get] blocks: a [Result] hands its value out once. *)
Theorem Result_setVal_get (v : Any) (r : Result) :
  isValid_ r = true -> resLimit_ (sem_ r) = 0 ->
  Result_get r = Blocked
  /\ exists r1 r2,
       Result_setVal v r = Some r1
       /\ Result_get r1 = Done (v, r2)
       /\ any_ r2 = moved_from
       /\ resLimit_ (sem_ r2) = 0
       /\ Result_get r2 = Blocked.
Proof.
  intros Hvalid Hzero. split.
  - apply Result_get_valid_blocks; [exact Hvalid|lia].
  - eexists _, _. split.
    { apply Result_setVal_posts. rewrite Hzero. unfold Int.INT32_MAX. lia. }
    unfold Result_get. cbn. rewrite Hvalid, Hzero. cbn.
    repeat split.
Qed.

(** X12. [submitTask] called with a null task pointer has undefined
    behaviour on both paths: rejected or admitted, it ends in the
    constructor of [Result], which calls [setResult] through the pointer. *)
Theorem submitTask_null (ret : Z) (s : Process) (wakeups : list Process)
    (at_timeout : Process) :
  submitTask None ret s wakeups at_timeout = None.
Proof.
  unfold submitTask. destruct (wait_for notFull s wakeups at_timeout) as [s1 [|]]; cbn.
  - unfold submit_admitted.
    destruct (must_grow (pool (enqueue None s1))); cbn; [|reflexivity].
    destruct (grow (enqueue None s1)); reflexivity.
  - reflexivity.
Qed.

End Future.

Lemma Result_setVal_get_witness :
  exists r1 r2,
    Result_setVal (Any_holding (H := Demo.code) Demo.T_int 5)
      (mkResult Any_default (Semaphore_ctor 0) (Some 10) true) = Some r1
    /\ Result_get r1 = Done (Any_holding (H := Demo.code) Demo.T_int 5, r2)
    /\ Result_get r2 = Blocked.
Proof.
  destruct (Result_setVal_get (H := Demo.code) (Any_holding (H := Demo.code) Demo.T_int 5)
              (mkResult Any_default (Semaphore_ctor 0) (Some 10) true))
    as (_ & r1 & r2 & Hset & Hget & _ & _ & Hagain); [reflexivity|reflexivity|].
  exists r1, r2. auto.
Defined.

(** ** Workers: when they leave, and what a running or stopped pool keeps *)

Section Workers.
Context `{UserCode}.

Lemma threadFunc_LoopHead (k : nat) (ev : wake) (w : Worker) (s : Process) :
  osThreads s !! k = Some w -> at_pc w = LoopHead ->
  threadFunc k ev s
  = if isPoolRunning_ (pool s) then
      if bool_decide (length (taskQue_ (pool s)) = 0%nat)
      then Some (set_pc k Waiting s)
      else take_task k w s
    else Some (exit_thread k w s).
Proof. intros Hk Hpc. unfold threadFunc. rewrite Hk. cbn. rewrite Hpc. reflexivity. Qed.

Lemma threadFunc_Waiting (k : nat) (ev : wake) (w : Worker) (s : Process) :
  osThreads s !! k = Some w -> at_pc w = Waiting ->
  threadFunc k ev s
  = if bool_decide (poolMode_ (pool s) = MODE_CACHED) && must_reap ev (pool s)
    then Some (reap k w s)
    else if negb (isPoolRunning_ (pool s)) then Some (exit_thread k w s)
    else if bool_decide (length (taskQue_ (pool s)) = 0%nat) then Some s
    else take_task k w s.
Proof. intros Hk Hpc. unfold threadFunc. rewrite Hk. cbn. rewrite Hpc. reflexivity. Qed.

Lemma threadFunc_Executing (k : nat) (ev : wake) (w : Worker) (task : option Z)
    (s : Process) :
  osThreads s !! k = Some w -> at_pc w = Executing task ->
  threadFunc k ev s = run_task k w task s.
Proof. intros Hk Hpc. unfold threadFunc. rewrite Hk. cbn. rewrite Hpc. reflexivity. Qed.

Lemma threadFunc_Entered (k : nat) (ev : wake) (w : Worker) (s : Process) :
  osThreads s !! k = Some w -> at_pc w = Entered ->
  threadFunc k ev s
  = if bool_decide (length (taskQue_ (pool s)) = 0%nat)
    then Some (set_pc k Waiting s)
    else take_task k w s.
Proof. intros Hk Hpc. unfold threadFunc. rewrite Hk. cbn. rewrite Hpc. reflexivity. Qed.

Lemma threadFunc_thread (k : nat) (ev : wake) (s s' : Process) :
  threadFunc k ev s = Some s' -> exists w, osThreads s !! k = Some w.
Proof.
  unfold threadFunc. destruct (osThreads s !! k) as [w|]; [eauto|discriminate].
Qed.

Lemma take_task_pool (k : nat) (w : Worker) (s s' : Process) :
  take_task k w s = Some s' ->
  exists task rest,
    taskQue_ (pool s) = task :: rest
    /\ s' = set_pc k (Executing task)
              (log (Dequeued (threadId w) task)
                (upd_pool (λ p, set_taskSize Z.pred
                                  (set_taskQue (λ _, rest)
                                    (set_idleThreadSize Z.pred p))) s)).
Proof.
  unfold take_task. destruct (taskQue_ (pool s)) as [|task rest]; [discriminate|].
  intros [= <-]. eauto.
Qed.

Lemma run_task_pool (k : nat) (w : Worker) (task : option Z) (s s' : Process) :
  run_task k w task s = Some s' ->
  pool s' = set_idleThreadSize Z.succ (pool s)
  /\ generateId_ s' = generateId_ s
  /\ dequeued (history s') = dequeued (history s)
  /\ osThreads s' = alter (λ w, mkWorker (threadId w) LoopHead) k (osThreads s).
Proof.
  unfold run_task. destruct task as [a|]; cbn.
  - destruct (Task_exec a s) as [s1|] eqn:Hexec; cbn; [|discriminate].
    apply Task_exec_frame in Hexec as (Hp & Hg & Hos & Hh & _).
    intros [= <-]. cbn. rewrite Hp, Hg, Hos, Hh, dequeued_snoc, app_nil_r. auto.
  - intros [= <-]. auto.
Qed.

(** What a step does to the workers while the pool is running. *)
Lemma running_step (a : action) (s s' : Process) :
  isPoolRunning_ (pool s) = true -> not_destroy a -> step a s = Some s' ->
  isPoolRunning_ (pool s') = true /\ same_config s s'.
Proof.
  intros Hrun Hnd Hstep. unfold same_config.
  destruct a as [a run|t|t|m|n|sp ret|ret|k ev| |k]; try destruct Hnd.
  - cbn in Hstep. destruct (tasks s !! a); [discriminate|].
    injection Hstep as <-. auto.
  - cbn in Hstep. destruct (Int.is_int t); [|discriminate]. injection Hstep as <-.
    cbn. unfold setTaskQueMaxThreshHold, chackRunningState. rewrite Hrun. auto.
  - cbn in Hstep. destruct (Int.is_int t); [|discriminate]. injection Hstep as <-.
    cbn. unfold setThreadSizeThreshHold, chackRunningState. rewrite Hrun. auto.
  - cbn in Hstep. injection Hstep as <-.
    cbn. unfold setMode, chackRunningState. rewrite Hrun. auto.
  - cbn in Hstep. destruct (Int.is_int n); [|discriminate].
    pose proof (start_same_tasks_side n s s' Hstep) as (_ & _ & Hmax & Hth & Hmode & _).
    split; [|auto].
    revert Hstep. apply (start_loops n s s' (λ x, isPoolRunning_ (pool x) = true)).
    + intros i x x' Hx Hl. apply start_create_effect in Hl as [-> _]. exact Hx.
    + intros i x x' Hx Hl. apply start_launch_effect in Hl as (th & _ & ->). exact Hx.
    + reflexivity.
  - apply step_submit_cases in Hstep as [[_ Hctor]|(_ & s2 & Hctor & Hs2)];
      apply Result_ctor_frame in Hctor as (-> & _); [auto|].
    destruct Hs2 as [[_ ->]|[_ Hgrow]]; [auto|].
    pose proof (grow_defined _ _ Hgrow) as Hlt.
    rewrite grow_spec in Hgrow by exact Hlt. injection Hgrow as <-. auto.
  - cbn in Hstep. destruct (results s !! ret) as [r|]; cbn in Hstep; [|discriminate].
    destruct (Result_get r) as [[any r']| |]; [|discriminate..].
    injection Hstep as <-. auto.
  - apply step_resume_cases in Hstep as (w & _ & Hres).
    destruct Hres as [? ?|task rest ? ?|?|? ?|?|a s1 ? Hexec]; cbn; auto.
    apply Task_exec_frame in Hexec as (-> & _). auto.
  - apply step_pass_cases in Hstep as (w & _ & _ & _ & ->). auto.
Qed.

(** X1. Once the pool is running, and until it is destroyed, no call
    changes its mode, the bound of its queue or the threshold of its
    worker count: the three setters return without effect, and nothing
    else writes these fields. *)
Theorem configuration_frozen_while_running (tr : list action) (s s' : Process) :
  isPoolRunning_ (pool s) = true ->
  Forall not_destroy tr ->
  steps tr s = Some s' ->
  isPoolRunning_ (pool s') = true
  /\ poolMode_ (pool s') = poolMode_ (pool s)
  /\ taskQueMaxThreshHold_ (pool s') = taskQueMaxThreshHold_ (pool s)
  /\ threadSizeThreshHold_ (pool s') = threadSizeThreshHold_ (pool s).
Proof.
  revert s. induction tr as [|a tr IH]; intros s Hrun Hall Hsteps; cbn in Hsteps.
  - injection Hsteps as <-. auto.
  - inversion Hall as [|? ? Ha Htr]; subst.
    destruct (step a s) as [s1|] eqn:Hstep; cbn in Hsteps; [|discriminate].
    destruct (running_step a s s1 Hrun Ha Hstep) as (Hrun1 & Hm & Hq & Ht).
    destruct (IH s1 Hrun1 Htr Hsteps) as (Hrun' & Hm' & Hq' & Ht').
    rewrite Hm', Hq', Ht'. auto.
Qed.



(** X9. A resumed thread changes the current worker count only by
    being reaped: the mode is cached, its wait on [notEmpty_] timed out
    at least 60 seconds after its last task, and the count is above the
    initial size.  The count then drops by one and stays at or above
    the initial size; the thread has left the registry and is gone. *)
Theorem worker_count_drops_only_by_reaping (w0 : World) (k : nat) (ev : wake)
    (s s' : Process) :
  reachable w0 s ->
  threadFunc k ev s = Some s' ->
  curThreadSize_ (pool s') <> curThreadSize_ (pool s) ->
  poolMode_ (pool s) = MODE_CACHED
  /\ (exists dur, ev = timeout dur /\ THREAD_MAX_IDLE_TIME <= dur)
  /\ Int.to_uint (initThreadSize_ (pool s)) < curThreadSize_ (pool s)
  /\ curThreadSize_ (pool s') = curThreadSize_ (pool s) - 1
  /\ Int.to_uint (initThreadSize_ (pool s')) <= curThreadSize_ (pool s')
  /\ idleThreadSize_ (pool s') = Int.to_uint (Z.pred (idleThreadSize_ (pool s)))
  /\ exists w,
       osThreads s !! k = Some w
       /\ at_pc w = Waiting
       /\ threads_ (pool s') = delete (threadId w) (threads_ (pool s))
       /\ osThreads s' !! k = Some (mkWorker (threadId w) Exited).
Proof.
  intros Hreach Hstep Hcur.
  pose proof (wf_cur s (reachable_wf w0 s Hreach)) as Hrange.
  destruct (threadFunc_thread k ev s s' Hstep) as [w Hk].
  destruct (at_pc w) as [| |task| |] eqn:Hpc; [| | | |exfalso; apply Hcur;
    rewrite (threadFunc_Entered k ev w s Hk Hpc) in Hstep;
    case_bool_decide;
      [injection Hstep as <-; reflexivity
      |apply take_task_pool in Hstep as (task & rest & _ & ->); reflexivity]].
  - exfalso. apply Hcur.
    rewrite (threadFunc_LoopHead k ev w s Hk Hpc) in Hstep.
    destruct (isPoolRunning_ (pool s)); [case_bool_decide|].
    + injection Hstep as <-. reflexivity.
    + apply take_task_pool in Hstep as (task & rest & _ & ->). reflexivity.
    + injection Hstep as <-. reflexivity.
  - rewrite (threadFunc_Waiting k ev w s Hk Hpc) in Hstep.
    destruct (bool_decide (poolMode_ (pool s) = MODE_CACHED) && must_reap ev (pool s))
      eqn:Hreap.
    + injection Hstep as <-.
      apply andb_true_iff in Hreap as [Hmode Hmust].
      apply bool_decide_eq_true in Hmode.
      destruct ev as [|dur]; [discriminate|]. cbn in Hmust.
      apply andb_true_iff in Hmust as [Hdur Habove].
      apply Z.leb_le in Hdur. apply Z.ltb_lt in Habove.
      pose proof (IntFacts.to_uint_range (initThreadSize_ (pool s))) as Hinit.
      assert (Hpred : Int.to_uint (Z.pred (curThreadSize_ (pool s)))
                      = curThreadSize_ (pool s) - 1).
      { apply IntFacts.to_uint_pred. lia. }
      split; [exact Hmode|]. split; [eauto|]. split; [exact Habove|].
      cbn. rewrite Hpred. split; [reflexivity|]. split; [lia|].
      split; [reflexivity|].
      exists w. split; [exact Hk|]. split; [exact Hpc|]. split; [reflexivity|].
      rewrite list_lookup_alter_eq, Hk. reflexivity.
    + exfalso. apply Hcur.
      destruct (isPoolRunning_ (pool s)); cbn in Hstep; [case_bool_decide|].
      * injection Hstep as <-. reflexivity.
      * apply take_task_pool in Hstep as (task & rest & _ & ->). reflexivity.
      * injection Hstep as <-. reflexivity.
  - exfalso. apply Hcur.
    rewrite (threadFunc_Executing k ev w task s Hk Hpc) in Hstep.
    apply run_task_pool in Hstep as (-> & _). reflexivity.
  - unfold threadFunc in Hstep. rewrite Hk in Hstep. cbn in Hstep.
    rewrite Hpc in Hstep. discriminate.
Qed.

Lemma entered_alter (ws : list Worker) (k : nat) (w : Worker) (c : pc) :
  ws !! k = Some w ->
  (entered (alter (λ w, mkWorker (threadId w) c) k ws)
   + (if is_Entered (at_pc w) then 1 else 0)
   = entered ws + (if is_Entered c then 1 else 0))%nat.
Proof.
  revert k. induction ws as [|w0 ws IH]; intros k Hk; [discriminate|].
  destruct k as [|k]; cbn in *.
  - injection Hk as ->. lia.
  - specialize (IH k Hk). lia.
Qed.

(** What a step does to the queue of a pool that is not running: a task
    leaves it only with a thread that had read the flag before. *)
Lemma stopped_step (a : action) (s s' : Process) :
  isPoolRunning_ (pool s) = false -> after_teardown a -> step a s = Some s' ->
  isPoolRunning_ (pool s') = false
  /\ exists taken,
       taskQue_ (pool s) = taken ++ taskQue_ (pool s')
       /\ dequeued (history s') = dequeued (history s) ++ taken
       /\ (length taken + entered (osThreads s') <= entered (osThreads s))%nat.
Proof.
  intros Hrun Hat Hstep.
  assert (Hsame : forall x : Process,
            isPoolRunning_ (pool x) = false ->
            taskQue_ (pool x) = taskQue_ (pool s) ->
            dequeued (history x) = dequeued (history s) ->
            (entered (osThreads x) <= entered (osThreads s))%nat ->
            isPoolRunning_ (pool x) = false
            /\ exists taken,
                 taskQue_ (pool s) = taken ++ taskQue_ (pool x)
                 /\ dequeued (history x) = dequeued (history s) ++ taken
                 /\ (length taken + entered (osThreads x)
                     <= entered (osThreads s))%nat).
  { intros x Hx Hq Hd He. split; [exact Hx|]. exists [].
    rewrite Hq, Hd, app_nil_r. auto. }
  destruct a as [a run|t|t|m|n|sp ret|ret|k ev| |k]; try destruct Hat.
  - cbn in Hstep. destruct (tasks s !! a); [discriminate|].
    injection Hstep as <-. apply Hsame; auto.
  - cbn in Hstep. destruct (Int.is_int t); [|discriminate]. injection Hstep as <-.
    apply Hsame; cbn; unfold setTaskQueMaxThreshHold, chackRunningState;
      rewrite ?Hrun; auto.
  - cbn in Hstep. destruct (Int.is_int t); [|discriminate]. injection Hstep as <-.
    apply Hsame; cbn; unfold setThreadSizeThreshHold, chackRunningState;
      rewrite ?Hrun; try case_decide; auto.
  - cbn in Hstep. injection Hstep as <-.
    apply Hsame; cbn; unfold setMode, chackRunningState; rewrite ?Hrun; auto.
  - cbn in Hstep. destruct (results s !! ret) as [r|]; cbn in Hstep; [|discriminate].
    destruct (Result_get r) as [[any r']| |]; [|discriminate..].
    injection Hstep as <-. apply Hsame; auto.
  - cbn in Hstep. destruct (threadFunc_thread k ev s s' Hstep) as [w Hk].
    destruct (at_pc w) as [| |task| |] eqn:Hpc.
    + rewrite (threadFunc_LoopHead k ev w s Hk Hpc), Hrun in Hstep.
      injection Hstep as <-. apply Hsame; auto. cbn.
      pose proof (entered_alter (osThreads s) k w Exited Hk) as He.
      rewrite Hpc in He. cbn in He. lia.
    + rewrite (threadFunc_Waiting k ev w s Hk Hpc), Hrun in Hstep.
      pose proof (entered_alter (osThreads s) k w Exited Hk) as He.
      rewrite Hpc in He. cbn in He.
      destruct (bool_decide _ && must_reap ev (pool s)); cbn in Hstep;
        injection Hstep as <-; apply Hsame; auto; cbn; lia.
    + rewrite (threadFunc_Executing k ev w task s Hk Hpc) in Hstep.
      apply run_task_pool in Hstep as (Hp & _ & Hd & Hos).
      pose proof (entered_alter (osThreads s) k w LoopHead Hk) as He.
      rewrite Hpc in He. cbn in He.
      apply Hsame; rewrite ?Hp, ?Hos; auto. lia.
    + unfold threadFunc in Hstep. rewrite Hk in Hstep. cbn in Hstep.
      rewrite Hpc in Hstep. discriminate.
    + rewrite (threadFunc_Entered k ev w s Hk Hpc) in Hstep.
      case_bool_decide.
      * injection Hstep as <-. apply Hsame; auto. cbn.
        pose proof (entered_alter (osThreads s) k w Waiting Hk) as He.
        rewrite Hpc in He. cbn in He. lia.
      * apply take_task_pool in Hstep as (task & rest & Hq & ->).
        split; [exact Hrun|]. exists [task]. cbn.
        rewrite Hq, dequeued_snoc.
        pose proof (entered_alter (osThreads s) k w (Executing task) Hk) as He.
        rewrite Hpc in He. cbn in He.
        split; [reflexivity|]. split; [reflexivity|lia].
  - cbn in Hstep. injection Hstep as <-. apply Hsame; auto.
  - apply step_pass_cases in Hstep as (w & _ & _ & Hrun' & _). congruence.
Qed.

(** X10. Once the destructor has cleared [isPoolRunning_], and as long as
    the pool is not started again and nothing is submitted, a task
    leaves the queue only with a thread that had read the flag as true
    before and has not tested the queue since: the tasks taken are the
    first of the queue, and there are at most as many of them as there
    were such threads; with no such thread the queue stays as it is.  A
    thread that is resumed while it stands at the head of the loop or
    waits for a task leaves at once and erases itself from the
    registry. *)
Theorem stopped_pool_takes_few_tasks (tr : list action) (s s' : Process) :
  isPoolRunning_ (pool s) = false ->
  Forall after_teardown tr ->
  steps tr s = Some s' ->
  isPoolRunning_ (pool s') = false
  /\ (exists taken,
        taskQue_ (pool s) = taken ++ taskQue_ (pool s')
        /\ dequeued (history s') = dequeued (history s) ++ taken
        /\ (length taken + entered (osThreads s') <= entered (osThreads s))%nat)
  /\ (entered (osThreads s) = 0%nat ->
        taskQue_ (pool s') = taskQue_ (pool s)
        /\ dequeued (history s') = dequeued (history s))
  /\ (forall k ev w,
        osThreads s' !! k = Some w ->
        at_pc w = LoopHead \/ at_pc w = Waiting ->
        exists s'',
          threadFunc k ev s' = Some s''
          /\ osThreads s'' !! k = Some (mkWorker (threadId w) Exited)
          /\ threads_ (pool s'') = delete (threadId w) (threads_ (pool s'))
          /\ taskQue_ (pool s'') = taskQue_ (pool s')).
Proof.
  intros Hrun Hall Hsteps.
  assert (Hkeep : isPoolRunning_ (pool s') = false
                  /\ exists taken,
                       taskQue_ (pool s) = taken ++ taskQue_ (pool s')
                       /\ dequeued (history s') = dequeued (history s) ++ taken
                       /\ (length taken + entered (osThreads s')
                           <= entered (osThreads s))%nat).
  { revert s Hrun Hsteps. induction Hall as [|a tr Ha Htr IH]; intros s Hrun Hsteps;
      cbn in Hsteps.
    - injection Hsteps as <-. split; [exact Hrun|]. exists [].
      rewrite app_nil_r. auto.
    - destruct (step a s) as [s1|] eqn:Hstep; cbn in Hsteps; [|discriminate].
      destruct (stopped_step a s s1 Hrun Ha Hstep) as (Hrun1 & t1 & Hq1 & Hd1 & He1).
      destruct (IH s1 Hrun1 Hsteps) as (Hrun' & t2 & Hq2 & Hd2 & He2).
      split; [exact Hrun'|]. exists (t1 ++ t2).
      rewrite Hq1, Hq2, Hd2, Hd1, length_app, !app_assoc.
      split; [reflexivity|]. split; [reflexivity|lia]. }
  destruct Hkeep as (Hrun' & taken & Hq & Hd & He).
  split; [exact Hrun'|]. split; [eauto|]. split.
  - intros Hnone. rewrite Hnone in He.
    destruct taken as [|x taken]; [|cbn in He; lia].
    rewrite Hq, Hd, app_nil_r. auto.
  - intros k ev w Hk Hpc.
    destruct Hpc as [Hpc|Hpc].
    + rewrite (threadFunc_LoopHead k ev w s' Hk Hpc), Hrun'.
      eexists. split; [reflexivity|]. cbn.
      rewrite list_lookup_alter_eq, Hk. auto.
    + rewrite (threadFunc_Waiting k ev w s' Hk Hpc), Hrun'.
      destruct (bool_decide _ && must_reap ev (pool s')); cbn;
        (eexists; split; [reflexivity|]); cbn;
        rewrite list_lookup_alter_eq, Hk; auto.
Qed.

End Workers.

(** A pool started with two workers: the setters change nothing, and a
    submission creates no worker. *)
Lemma configuration_frozen_while_running_witness :
  exists s',
    steps Scenario.reconfigure Scenario.started = Some s'
    /\ poolMode_ (pool s') = MODE_FIXED
    /\ taskQueMaxThreshHold_ (pool s') = TASK_MAX_THRESHHOLD
    /\ threadSizeThreshHold_ (pool s') = THREAD_MAX_THRESHHOLD.
Proof.
  destruct (steps Scenario.reconfigure Scenario.started) as [s'|] eqn:Hsteps;
    [|vm_compute in Hsteps; discriminate].
  exists s'. split; [reflexivity|].
  destruct (configuration_frozen_while_running (H := Demo.code)
              Scenario.reconfigure Scenario.started s') as (_ & Hm & Hq & Ht).
  - reflexivity.
  - repeat constructor.
  - exact Hsteps.
  - rewrite Hm, Hq, Ht. repeat split.
Defined.


(** The second worker of the grown pool times out after 60 seconds and
    is reaped: one worker is left, the initial size. *)
Lemma worker_count_drops_only_by_reaping_witness :
  exists s',
    threadFunc 1 (timeout 60) Scenario.grown = Some s'
    /\ curThreadSize_ (pool Scenario.grown) = 2
    /\ curThreadSize_ (pool s') = 1
    /\ Int.to_uint (initThreadSize_ (pool s')) <= curThreadSize_ (pool s').
Proof.
  destruct (threadFunc 1 (timeout 60) Scenario.grown) as [s'|] eqn:Hstep;
    [|vm_compute in Hstep; discriminate].
  exists s'. split; [reflexivity|]. split; [reflexivity|].
  assert (Hs' : curThreadSize_ (pool s') = 1).
  { vm_compute in Hstep. injection Hstep as <-. reflexivity. }
  destruct (worker_count_drops_only_by_reaping (H := Demo.code) [] 1 (timeout 60)
              Scenario.grown s') as (_ & _ & _ & _ & Hfloor & _).
  - apply (steps_reachable (H := Demo.code) [] Scenario.grow_then_idle).
    vm_compute. reflexivity.
  - exact Hstep.
  - rewrite Hs'. discriminate.
  - split; [exact Hs'|exact Hfloor].
Defined.

(** Worker 0 had read the flag before the destruction: afterwards it
    takes task 10 and runs it, while worker 1 leaves; task 11 stays in
    the queue. *)
Lemma stopped_pool_takes_few_tasks_witness :
  exists s' taken,
    steps Scenario.aftermath Scenario.torn_down = Some s'
    /\ isPoolRunning_ (pool s') = false
    /\ taskQue_ (pool Scenario.torn_down) = taken ++ taskQue_ (pool s')
    /\ dequeued (history s') = taken
    /\ (length taken <= 1)%nat
    /\ taskQue_ (pool s') = [Some 11].
Proof.
  destruct (steps Scenario.aftermath Scenario.torn_down) as [s'|] eqn:Hsteps;
    [|vm_compute in Hsteps; discriminate].
  destruct (stopped_pool_takes_few_tasks (H := Demo.code)
              Scenario.aftermath Scenario.torn_down s')
    as (Hrun & (taken & Hq & Hd & He) & _).
  - reflexivity.
  - repeat constructor.
  - exact Hsteps.
  - exists s', taken. split; [reflexivity|]. split; [exact Hrun|].
    split; [exact Hq|]. split; [exact Hd|]. split.
    + assert (E : entered (osThreads Scenario.torn_down) = 1%nat)
        by (vm_compute; reflexivity).
      rewrite E in He. lia.
    + vm_compute in Hsteps. injection Hsteps as <-. reflexivity.
Defined.

(** ** The bound of the queue *)

Section QueueBound.
Context `{UserCode}.

(** X2. On a pool that is not running, [setTaskQueMaxThreshHold(t)]
    stores [t] converted to [size_t].  A bound of 0 makes the queue full
    from the start.  A negative [t] does not: it becomes [2^64 + t],
    at least [2^64 - 2^31], and the queue counts as not full at any
    length below that. *)
Theorem setTaskQueMaxThreshHold_bound (t : Z) (s : Process) :
  isPoolRunning_ (pool s) = false ->
  Int.is_int t = true ->
  let s' := upd_pool (setTaskQueMaxThreshHold t) s in
  taskQue_ (pool s') = taskQue_ (pool s)
  /\ (0 <= t -> taskQueMaxThreshHold_ (pool s') = t)
  /\ (t = 0 -> notFull s' = false)
  /\ (t < 0 ->
      taskQueMaxThreshHold_ (pool s') = Int.SIZE_MODULUS + t
      /\ (Z.of_nat (length (taskQue_ (pool s))) < Int.SIZE_MODULUS - 2 ^ 31 ->
          notFull s' = true)).
Proof.
  intros Hrun Hint s'. subst s'. unfold notFull. cbn.
  unfold setTaskQueMaxThreshHold, chackRunningState. rewrite Hrun. cbn.
  split; [reflexivity|]. split; [|split].
  - intros Hnn. apply IntFacts.to_size_t_int; assumption.
  - intros ->. apply Z.ltb_ge.
    rewrite IntFacts.to_size_t_small by (unfold Int.SIZE_MODULUS; lia). lia.
  - intros Hneg. apply IntFacts.is_int_spec in Hint.
    assert (Hwrap : Int.to_size_t t = Int.SIZE_MODULUS + t).
    { unfold Int.to_size_t.
      rewrite <- (Z.mod_add t 1 Int.SIZE_MODULUS) by (unfold Int.SIZE_MODULUS; lia).
      rewrite Z.mod_small; unfold Int.SIZE_MODULUS, Int.INT32_MIN in *; lia. }
    rewrite Hwrap. split; [reflexivity|].
    intros Hlen. apply Z.ltb_lt. unfold Int.INT32_MIN in Hint. lia.
Qed.

End QueueBound.

Lemma setTaskQueMaxThreshHold_bound_witness :
  notFull (upd_pool (setTaskQueMaxThreshHold 0) (initial (H := Demo.code) [])) = false
  /\ notFull (upd_pool (setTaskQueMaxThreshHold (-1)) (initial (H := Demo.code) []))
     = true.
Proof.
  split.
  - destruct (setTaskQueMaxThreshHold_bound (H := Demo.code) 0 (initial (H := Demo.code) [])) as (_ & _ & Hzero & _);
      [reflexivity|reflexivity|]. apply Hzero. reflexivity.
  - destruct (setTaskQueMaxThreshHold_bound (H := Demo.code) (-1) (initial (H := Demo.code) [])) as (_ & _ & _ & Hneg);
      [reflexivity|reflexivity|].
    destruct Hneg as [_ Hroom]; [lia|]. apply Hroom. reflexivity.
Defined.

(** ** [start] *)

Section Start.
Context `{UserCode}.

(** A loop of [k] iterations, with a property indexed by the number of
    iterations done. *)
Lemma for_loop_count (P : nat -> Process -> Prop) (body : Z -> Process -> option Process)
    (k : nat) (i0 : Z) (s : Process) :
  P 0%nat s ->
  (forall j x, (j < k)%nat -> P j x ->
     exists x', body (i0 + Z.of_nat j) x = Some x' /\ P (Datatypes.S j) x') ->
  exists s', for_loop i0 k body s = Some s' /\ P k s'.
Proof.
  revert P i0 s. induction k as [|k IH]; intros P i0 s H0 Hbody; cbn.
  - eauto.
  - destruct (Hbody 0%nat s) as (x' & Hx' & HP1); [lia|exact H0|].
    rewrite Z.add_0_r in Hx'. rewrite Hx'. cbn.
    apply (IH (λ j, P (Datatypes.S j))); [exact HP1|].
    intros j x Hj HP. destruct (Hbody (Datatypes.S j) x) as (x'' & Hx'' & HP'); [lia|exact HP|].
    exists x''. split; [|exact HP'].
    rewrite <- Hx''. f_equal. lia.
Qed.

Lemma to_uint_succ_mod (z : Z) : Int.to_uint (Z.succ (Int.to_uint z)) = Int.to_uint (z + 1).
Proof.
  unfold Int.to_uint, Z.succ. apply Zplus_mod_idemp_l.
Qed.

Lemma to_uint_pred_mod (z : Z) : Int.to_uint (Z.pred (Int.to_uint z)) = Int.to_uint (z - 1).
Proof.
  unfold Int.to_uint.
  replace (Z.pred (z mod Int.UINT_MODULUS)) with (z mod Int.UINT_MODULUS + -1) by lia.
  replace (z - 1) with (z + -1) by lia.
  apply Zplus_mod_idemp_l.
Qed.

(** X6. [start(n)] on a process in which no [Thread] has been constructed
    yet marks the pool as running, records [n], and creates and starts
    exactly [n] workers (none when [n <= 0]): they are registered under
    the identifiers [0 .. n-1], each runs [threadFunc] with its own
    identifier, and the current and idle counts go up by [n].  The queue
    and the configuration are not touched. *)
Theorem start_from_fresh (n : Z) (s : Process) :
  wf s -> generateId_ s = 0 -> Int.is_int n = true ->
  exists s',
    start n s = Some s'
    /\ isPoolRunning_ (pool s') = true
    /\ initThreadSize_ (pool s') = n
    /\ generateId_ s' = Z.max n 0
    /\ (forall i, threads_ (pool s') !! i
                  = if decide (0 <= i < n) then Some (mkThread i) else None)
    /\ osThreads s'
       = osThreads s ++ ((λ i, mkWorker (Z.of_nat i) LoopHead) <$> seq 0 (Z.to_nat n))
    /\ curThreadSize_ (pool s') = Int.to_uint (curThreadSize_ (pool s) + Z.max n 0)
    /\ idleThreadSize_ (pool s') = Int.to_uint (idleThreadSize_ (pool s) + Z.max n 0)
    /\ same_tasks_side s s'.
Proof.
  intros Hwf Hg0 Hint. apply IntFacts.is_int_spec in Hint.
  set (N := Z.to_nat n).
  assert (HN : Z.of_nat N = Z.max n 0) by (unfold N; lia).
  assert (HNmax : Z.of_nat N <= Int.INT32_MAX) by (unfold Int.INT32_MAX in *; lia).
  set (s0 := upd_pool (λ p, set_initThreadSize n (set_isPoolRunning true p)) s).
  set (P1 := λ (j : nat) (x : Process),
       generateId_ x = Z.of_nat j
       /\ (forall i, threads_ (pool x) !! i
                     = if decide (0 <= i < Z.of_nat j) then Some (mkThread i) else None)
       /\ curThreadSize_ (pool x) = Int.to_uint (curThreadSize_ (pool s) + Z.of_nat j)
       /\ idleThreadSize_ (pool x) = idleThreadSize_ (pool s)
       /\ osThreads x = osThreads s
       /\ isPoolRunning_ (pool x) = true
       /\ initThreadSize_ (pool x) = n
       /\ same_tasks_side s x).
  destruct (for_loop_count P1 start_create N 0 s0) as (s1 & Hloop1 & HP1).
  { unfold P1, s0. cbn. split; [exact Hg0|]. split.
    - intros i. rewrite decide_False by lia.
      destruct (threads_ (pool s) !! i) as [th|] eqn:E; [|reflexivity].
      destruct (wf_threads s Hwf i th E). lia.
    - split; [|repeat split].
      rewrite Z.add_0_r. symmetry. apply IntFacts.to_uint_small. exact (wf_cur s Hwf). }
  { intros j x Hj (Hg & Hth & Hc & Hi & Hos & Hrun & Hinit & Hside).
    unfold start_create, Thread_ctor, Int.int_incr.
    assert (Hlt : (generateId_ x <? Int.INT32_MAX) = true) by (apply Z.ltb_lt; lia).
    rewrite Hlt. cbn. eexists. split; [reflexivity|].
    unfold P1. cbn. split; [lia|]. split.
    - intros i.
      rewrite umap_insert_fresh by (rewrite Hth; rewrite decide_False; [reflexivity|lia]).
      rewrite lookup_insert, Hth, Hg.
      destruct (decide (Z.of_nat j = i)) as [<-|Hne].
      + rewrite decide_True by lia. reflexivity.
      + destruct (decide (0 <= i < Z.of_nat j)).
        * rewrite decide_True by lia. reflexivity.
        * rewrite decide_False by lia. reflexivity.
    - split; [|auto].
      rewrite Hc, to_uint_succ_mod. f_equal. lia. }
  destruct HP1 as (Hg1 & Hth1 & Hc1 & Hi1 & Hos1 & Hrun1 & Hinit1 & Hside1).
  set (P2 := λ (j : nat) (x : Process),
       generateId_ x = Z.of_nat N
       /\ threads_ (pool x) = threads_ (pool s1)
       /\ curThreadSize_ (pool x) = curThreadSize_ (pool s1)
       /\ idleThreadSize_ (pool x) = Int.to_uint (idleThreadSize_ (pool s) + Z.of_nat j)
       /\ osThreads x
          = osThreads s ++ ((λ i, mkWorker (Z.of_nat i) LoopHead) <$> seq 0 j)
       /\ isPoolRunning_ (pool x) = true
       /\ initThreadSize_ (pool x) = n
       /\ same_tasks_side s x).
  destruct (for_loop_count P2 start_launch N 0 s1) as (s2 & Hloop2 & HP2).
  { unfold P2. cbn. rewrite app_nil_r, Z.add_0_r.
    split; [exact Hg1|]. split; [reflexivity|]. split; [reflexivity|].
    split; [|auto].
    rewrite Hi1. symmetry. apply IntFacts.to_uint_small. exact (wf_idle s Hwf). }
  { intros j x Hj (Hg & Hth & Hc & Hi & Hos & Hrun & Hinit & Hside).
    unfold start_launch. rewrite Hth, Hth1, decide_True by lia. cbn.
    eexists. split; [reflexivity|].
    unfold P2. cbn -[seq].
    split; [exact Hg|]. split; [exact Hth|]. split; [exact Hc|].
    split; [|split; [|auto]].
    - rewrite Hi, to_uint_succ_mod. f_equal. lia.
    - rewrite Hos, seq_S, fmap_app, app_assoc. reflexivity. }
  destruct HP2 as (Hg2 & Hth2 & Hc2 & Hi2 & Hos2 & Hrun2 & Hinit2 & Hside2).
  exists s2. split.
  { unfold start. cbn. fold s0. fold N. rewrite Hloop1. cbn. exact Hloop2. }
  rewrite Hth2, Hc2, Hc1, Hi2, HN in *.
  repeat (split; [assumption|]). split; [|auto].
  intros i. rewrite Hth1.
  destruct (decide (0 <= i < Z.max n 0)); [rewrite decide_True by lia|rewrite decide_False by lia];
    reflexivity.
Qed.

(** X7. The identifiers come from a counter shared by all [Thread]s,
    while [start] looks its workers up under [0 .. n-1].  So once a
    [Thread] has been constructed and the registry has no entry 0,
    [start(n)] with [n >= 1] has undefined behaviour: [threads_[0]] is a
    null pointer, and [start()] is called through it. *)
Theorem start_needs_worker_0 (n : Z) (s : Process) :
  0 < generateId_ s -> threads_ (pool s) !! 0 = None -> 1 <= n ->
  start n s = None.
Proof.
  intros Hg Habsent Hn. unfold start. cbn.
  destruct (for_loop 0 (Z.to_nat n) start_create _) as [s1|] eqn:Hloop1; cbn;
    [|reflexivity].
  assert (Hinv : 0 < generateId_ s1 /\ threads_ (pool s1) !! 0 = None).
  { eapply (for_loop_invariant
              (λ x, 0 < generateId_ x /\ threads_ (pool x) !! 0 = None));
      [| |exact Hloop1].
    - intros i x x' [Hgx Hx] Hl. apply start_create_effect in Hl as [-> _]. cbn.
      split; [lia|]. unfold umap_insert.
      destruct (threads_ (pool x) !! generateId_ x); [exact Hx|].
      rewrite lookup_insert_ne by lia. exact Hx.
    - cbn. auto. }
  destruct Hinv as [_ Hno].
  destruct (Z.to_nat n) as [|k] eqn:Hk; [lia|]. cbn.
  unfold start_launch. rewrite Hno. reflexivity.
Qed.

End Start.

(** Three workers from the initial process. *)
Lemma start_from_fresh_witness :
  exists s',
    start 3 (initial (H := Demo.code) []) = Some s'
    /\ osThreads s' = [mkWorker 0 LoopHead; mkWorker 1 LoopHead; mkWorker 2 LoopHead]
    /\ curThreadSize_ (pool s') = 3
    /\ idleThreadSize_ (pool s') = 3
    /\ threads_ (pool s') !! 2 = Some (mkThread 2)
    /\ threads_ (pool s') !! 3 = None.
Proof.
  destruct (start_from_fresh (H := Demo.code) 3 (initial (H := Demo.code) []))
    as (s' & Hstart & _ & _ & _ & Hth & Hos & Hc & Hi & _).
  - apply wf_initial.
  - reflexivity.
  - reflexivity.
  - exists s'. split; [exact Hstart|]. split; [exact Hos|].
    split; [exact Hc|]. split; [exact Hi|]. split; apply Hth.
Defined.

(** After the early worker has come and gone, the pool cannot be
    started. *)
Lemma start_needs_worker_0_witness :
  generateId_ (Scenario.after Scenario.early_worker) = 1
  /\ threads_ (pool (Scenario.after Scenario.early_worker)) !! 0 = None
  /\ start 1 (Scenario.after Scenario.early_worker) = None.
Proof.
  split; [vm_compute; reflexivity|]. split; [vm_compute; reflexivity|].
  apply (start_needs_worker_0 (H := Demo.code) 1).
  - vm_compute. reflexivity.
  - vm_compute. reflexivity.
  - lia.
Defined.

(** ** Identifiers of the workers *)

Section Identifiers.
Context `{UserCode}.

Lemma wf_start_create (i : Z) (x x' : Process) :
  wf x -> start_create i x = Some x' -> wf x' /\ generateId_ x' = generateId_ x + 1.
Proof.
  intros Hx Hl. apply start_create_effect in Hl as [-> Hlt]. split; [|reflexivity].
  split; cbn; try apply IntFacts.to_uint_range.
  - exact (wf_idle x Hx).
  - exact (wf_taskSize x Hx).
  - pose proof (wf_generateId x Hx). lia.
  - apply (wf_threads_insert x _ Hx). lia.
Qed.

Lemma ids_below_weaken (ws : list Worker) (g g' : Z) :
  g <= g' ->
  Forall (λ w, 0 <= threadId w < g) ws -> Forall (λ w, 0 <= threadId w < g') ws.
Proof.
  intros Hle Hall. eapply Forall_impl; [exact Hall|].
  intros w Hw. cbn in *. lia.
Qed.

Lemma ids_below_alter (k : nat) (c : pc) (ws : list Worker) (g : Z) :
  Forall (λ w, 0 <= threadId w < g) ws ->
  Forall (λ w, 0 <= threadId w < g) (alter (λ w, mkWorker (threadId w) c) k ws).
Proof. intros Hall. apply Forall_alter; [exact Hall|]. intros w _ Hw. exact Hw. Qed.

Lemma ids_start (n : Z) (s s' : Process) :
  wf s -> ids_below s -> start n s = Some s' ->
  ids_below s' /\ generateId_ s <= generateId_ s'.
Proof.
  intros Hwf Hids Hstart.
  assert (Hloops : wf s' /\ ids_below s' /\ generateId_ s <= generateId_ s');
    [|tauto].
  revert Hstart.
  apply (start_loops n s s'
           (λ x, wf x /\ ids_below x /\ generateId_ s <= generateId_ x)).
  - intros i x x' (Hx & Hidx & Hle) Hl.
    destruct (wf_start_create i x x' Hx Hl) as [Hx' Hg'].
    split; [exact Hx'|]. split; [|lia].
    apply start_create_effect in Hl as [-> _]. unfold ids_below in *. cbn.
    revert Hidx. apply ids_below_weaken. lia.
  - intros i x x' (Hx & Hidx & Hle) Hl.
    apply start_launch_effect in Hl as (th & Hth & ->).
    destruct (wf_threads x Hx i th Hth) as [Hid Hrange].
    split; [|split; [|exact Hle]].
    + destruct Hx as [Hi Hc Ht Hgen Hthr].
      split; cbn; try assumption. apply IntFacts.to_uint_range.
    + unfold ids_below in *. cbn. apply Forall_app. split; [exact Hidx|].
      constructor; [cbn; lia|constructor].
  - split; [|split; [exact Hids|cbn; lia]].
    destruct Hwf as [Hi Hc Ht Hgen Hthr]. split; cbn; assumption.
Qed.

Lemma ids_step (a : action) (s s' : Process) :
  wf s -> ids_below s -> step a s = Some s' ->
  ids_below s' /\ generateId_ s <= generateId_ s'.
Proof.
  intros Hwf Hids Hstep. destruct a as [a run|t|t|m|n|sp ret|ret|k ev| |k].
  - cbn in Hstep. destruct (tasks s !! a); [discriminate|].
    injection Hstep as <-. split; [exact Hids|cbn; lia].
  - cbn in Hstep. destruct (Int.is_int t); [|discriminate]. injection Hstep as <-.
    split; [exact Hids|cbn; lia].
  - cbn in Hstep. destruct (Int.is_int t); [|discriminate]. injection Hstep as <-.
    split; [exact Hids|cbn; lia].
  - cbn in Hstep. injection Hstep as <-. split; [exact Hids|cbn; lia].
  - cbn in Hstep. destruct (Int.is_int n); [|discriminate].
    eapply ids_start; eassumption.
  - apply step_submit_cases in Hstep as [[_ Hctor]|(_ & s2 & Hctor & Hs2)];
      apply Result_ctor_frame in Hctor as (_ & _ & Hg & Hos & _);
      unfold ids_below; rewrite Hg, Hos.
    + split; [exact Hids|lia].
    + destruct Hs2 as [[_ ->]|[_ Hgrow]]; [split; [exact Hids|cbn; lia]|].
      pose proof (grow_defined _ _ Hgrow) as Hlt.
      rewrite grow_spec in Hgrow by exact Hlt. injection Hgrow as <-. cbn.
      split; [|lia].
      apply Forall_app. split.
      * revert Hids. apply ids_below_weaken. lia.
      * rewrite (wf_fresh s Hwf). cbn.
        pose proof (wf_generateId s Hwf).
        constructor; [cbn; lia|constructor].
  - cbn in Hstep. destruct (results s !! ret) as [r|]; cbn in Hstep; [|discriminate].
    destruct (Result_get r) as [[any r']| |]; [|discriminate..].
    injection Hstep as <-. split; [exact Hids|cbn; lia].
  - apply step_resume_cases in Hstep as (w & _ & Hres).
    unfold ids_below in *.
    destruct Hres as [? ?|task rest ? ?|?|? ?|?|a s1 ? Hexec]; cbn.
    1-5: split; [apply ids_below_alter; exact Hids|lia].
    apply Task_exec_frame in Hexec as (_ & -> & -> & _).
    split; [apply ids_below_alter; exact Hids|lia].
  - cbn in Hstep. injection Hstep as <-. split; [exact Hids|cbn; lia].
  - apply step_pass_cases in Hstep as (w & _ & _ & _ & ->).
    unfold ids_below in *. cbn.
    split; [apply ids_below_alter; exact Hids|lia].
Qed.

Lemma reachable_ids_below (w0 : World) (s : Process) : reachable w0 s -> ids_below s.
Proof.
  induction 1 as [|a s s' Hreach IH _ Hstep]; [constructor|].
  apply (ids_step a s s'); [|exact IH|exact Hstep].
  apply (reachable_wf w0). apply (reachable_by_weaken _ w0 s Hreach).
Qed.

(** X15. In every reachable state, the identifier of every thread and
    every key of the registry lies below [Thread::generateId_], and
    every registered [Thread] carries its key as identifier.  The next
    [Thread] constructed receives the value of the counter, which is
    then incremented: its identifier is that of no registered [Thread]
    and of no thread running at that time.  No step decreases the
    counter. *)
Theorem identifiers_below_counter (w0 : World) (s : Process) :
  reachable w0 s ->
  (forall w, w ∈ osThreads s -> 0 <= threadId w < generateId_ s)
  /\ (forall k th, threads_ (pool s) !! k = Some th ->
                   threadId_ th = k /\ 0 <= k < generateId_ s)
  /\ (forall th g', Thread_ctor (generateId_ s) = Some (th, g') ->
                    getId th = generateId_ s
                    /\ g' = generateId_ s + 1
                    /\ threads_ (pool s) !! getId th = None
                    /\ forall w, w ∈ osThreads s -> threadId w <> getId th)
  /\ (forall a s', step a s = Some s' ->
                   generateId_ s <= generateId_ s'
                   /\ forall w, w ∈ osThreads s' -> 0 <= threadId w < generateId_ s').
Proof.
  intros Hreach.
  pose proof (reachable_wf w0 s Hreach) as Hwf.
  pose proof (reachable_ids_below w0 s Hreach) as Hids.
  assert (Hos : forall w, w ∈ osThreads s -> 0 <= threadId w < generateId_ s).
  { apply Forall_forall. exact Hids. }
  split; [exact Hos|]. split; [exact (wf_threads s Hwf)|]. split.
  - intros th g'. unfold Thread_ctor, Int.int_incr.
    destruct (generateId_ s <? Int.INT32_MAX); cbn; [|discriminate].
    intros [= <- <-]. cbn.
    split; [reflexivity|]. split; [reflexivity|]. split; [apply wf_fresh; exact Hwf|].
    intros w Hw. specialize (Hos w Hw). lia.
  - intros a s' Hstep. destruct (ids_step a s s' Hwf Hids Hstep) as [Hids' Hle].
    split; [exact Hle|]. apply Forall_forall. exact Hids'.
Qed.

End Identifiers.

(** A pool started twice with two workers: four [Thread]s have been
    constructed, under the identifiers 0 to 3, and the next one will be
    4; the four threads running are those of the [Thread]s 0 and 1, each
    started twice. *)
Lemma identifiers_below_counter_witness :
  generateId_ (Scenario.after Scenario.started_twice) = 4
  /\ threadId <$> osThreads (Scenario.after Scenario.started_twice) = [0; 1; 0; 1]
  /\ (forall w, w ∈ osThreads (Scenario.after Scenario.started_twice) ->
                0 <= threadId w < 4)
  /\ threads_ (pool (Scenario.after Scenario.started_twice)) !! 4 = None.
Proof.
  split; [vm_compute; reflexivity|]. split; [vm_compute; reflexivity|].
  destruct (identifiers_below_counter (H := Demo.code) []
              (Scenario.after Scenario.started_twice)) as (Hos & _ & Hnext & _).
  - apply (steps_reachable (H := Demo.code) [] Scenario.started_twice).
    vm_compute. reflexivity.
  - split; [exact Hos|].
    destruct (Hnext (mkThread 4) 5) as (_ & _ & Hfresh & _); [reflexivity|].
    exact Hfresh.
Defined.

(** ** A task on its way through the pool *)

Section Journey.
Context `{UserCode}.

Lemma to_uint_succ_pred (z : Z) :
  0 <= z < Int.UINT_MODULUS -> Int.to_uint (Z.succ (Int.to_uint (Z.pred z))) = z.
Proof.
  intros Hz. rewrite to_uint_succ_mod.
  replace (Z.pred z + 1) with z by lia. apply IntFacts.to_uint_small. exact Hz.
Qed.

(** A worker at the head of the loop takes the task at the front of the
    queue and executes it. *)
Lemma work_cycle_from (k : nat) (ev1 ev2 : wake) (w : Worker) (a ret : Z)
    (t : Task) (r : Result) (rest : list (option Z)) (s : Process) :
  wf s ->
  osThreads s !! k = Some w -> at_pc w = LoopHead ->
  isPoolRunning_ (pool s) = true ->
  taskQue_ (pool s) = Some a :: rest ->
  tasks s !! a = Some t -> result_ t = Some ret ->
  results s !! ret = Some r -> resLimit_ (sem_ r) < Int.INT32_MAX ->
  exists s1 s2,
    threadFunc k ev1 s = Some s1
    /\ threadFunc k ev2 s1 = Some s2
    /\ taskQue_ (pool s2) = rest
    /\ taskSize_ (pool s2) = Int.to_uint (Z.pred (taskSize_ (pool s)))
    /\ idleThreadSize_ (pool s2) = idleThreadSize_ (pool s)
    /\ curThreadSize_ (pool s2) = curThreadSize_ (pool s)
    /\ osThreads s2 !! k = Some (mkWorker (threadId w) LoopHead)
    /\ world s2 = (run t (world s)).2
    /\ results s2 !! ret
       = Some (mkResult (run t (world s)).1 (mkSemaphore (resLimit_ (sem_ r) + 1))
                 (task_ r) (isValid_ r))
    /\ history s2
       = history s ++ [Dequeued (threadId w) (Some a); Executed (threadId w) a].
Proof.
  intros Hwf Hk Hpc Hrun Hq Ht Hres Hr Hsem.
  destruct (run t (world s)) as [any w'] eqn:Hrun_t.
  eexists _, _. split.
  { rewrite (threadFunc_LoopHead k ev1 w s Hk Hpc), Hrun.
    rewrite bool_decide_eq_false_2 by (rewrite Hq; discriminate).
    unfold take_task. rewrite Hq. reflexivity. }
  split.
  { erewrite threadFunc_Executing;
      [|cbn; rewrite list_lookup_alter_eq, Hk; reflexivity|reflexivity].
    unfold run_task, Task_exec. cbn. rewrite Ht. cbn. rewrite Hres, Hrun_t. cbn.
    rewrite Hr. cbn. rewrite Result_setVal_posts by exact Hsem. cbn. reflexivity. }
  cbn. rewrite list_lookup_alter_eq, list_lookup_alter_eq, Hk. cbn.
  rewrite lookup_insert_eq, <- !app_assoc. cbn.
  rewrite (to_uint_succ_pred _ (wf_idle s Hwf)).
  repeat split.
Qed.

(** X4. A worker standing at the head of the loop of a running pool,
    with a task at the front of the queue that is bound to a live
    [Result], needs two resumptions to take and execute it.
    Afterwards the task is off the queue, the pending count is one
    lower, the idle and current counts are what they were, the worker
    is back at the head of the loop, [run] has acted once on the user's
    state, and its value is stored in the [Result] with the semaphore
    posted once. *)
Theorem worker_takes_and_executes (k : nat) (ev1 ev2 : wake) (w : Worker) (a ret : Z)
    (t : Task) (r : Result) (rest : list (option Z)) (s : Process) :
  wf s ->
  osThreads s !! k = Some w -> at_pc w = LoopHead ->
  isPoolRunning_ (pool s) = true ->
  taskQue_ (pool s) = Some a :: rest ->
  tasks s !! a = Some t -> result_ t = Some ret ->
  results s !! ret = Some r -> resLimit_ (sem_ r) < Int.INT32_MAX ->
  exists s2,
    steps [Resume k ev1; Resume k ev2] s = Some s2
    /\ taskQue_ (pool s2) = rest
    /\ taskSize_ (pool s2) = Int.to_uint (Z.pred (taskSize_ (pool s)))
    /\ idleThreadSize_ (pool s2) = idleThreadSize_ (pool s)
    /\ curThreadSize_ (pool s2) = curThreadSize_ (pool s)
    /\ osThreads s2 !! k = Some (mkWorker (threadId w) LoopHead)
    /\ world s2 = (run t (world s)).2
    /\ results s2 !! ret
       = Some (mkResult (run t (world s)).1 (mkSemaphore (resLimit_ (sem_ r) + 1))
                 (task_ r) (isValid_ r))
    /\ executed (history s2) = executed (history s) ++ [a].
Proof.
  intros Hwf Hk Hpc Hrun Hq Ht Hres Hr Hsem.
  destruct (work_cycle_from k ev1 ev2 w a ret t r rest s Hwf Hk Hpc Hrun Hq Ht Hres Hr Hsem)
    as (s1 & s2 & H1 & H2 & Hque & Hsz & Hidle & Hcur & Hos & Hworld & Hresult & Hhist).
  exists s2. cbn. rewrite H1. cbn. rewrite H2. cbn.
  repeat (split; [reflexivity || assumption|]).
  rewrite Hhist. unfold executed. rewrite omap_app. cbn. reflexivity.
Qed.

(** The state after an admitted submission. *)
Lemma submit_admitted_state (a ret : Z) (t : Task) (s : Process) :
  tasks s !! a = Some t -> generateId_ s < Int.INT32_MAX ->
  exists s2 extra,
    submit_admitted (Some a) ret s
    = Some (upd_tasks <[a := Task_setResult (Some ret) t]>
             (upd_results <[ret := mkResult Any_default (Semaphore_ctor 0) (Some a) true]> s2))
    /\ taskQue_ (pool s2) = taskQue_ (pool s) ++ [Some a]
    /\ isPoolRunning_ (pool s2) = isPoolRunning_ (pool s)
    /\ osThreads s2 = osThreads s ++ extra
    /\ tasks s2 = tasks s
    /\ world s2 = world s
    /\ history s2 = history s ++ [Enqueued (Some a)].
Proof.
  intros Ht Hg. unfold submit_admitted.
  destruct (must_grow (pool (enqueue (Some a) s))).
  - rewrite grow_spec by exact Hg. cbn [mbind option_bind].
    eexists _, _. split.
    + unfold Result_ctor. cbn. rewrite Ht. cbn. reflexivity.
    + cbn. repeat split.
  - cbn [mbind option_bind]. exists (enqueue (Some a) s), [].
    split.
    + unfold Result_ctor. cbn. rewrite Ht. cbn. reflexivity.
    + cbn. rewrite app_nil_r. repeat split.
Qed.

(** X5. From submission to [get]: in a running pool with an empty queue
    that admits at least one task, a live task is submitted and a
    worker standing at the head of the loop is resumed twice.  Then
    [get] on the returned [Result] does not block and returns the value
    of [run], which has acted once on the user's state; the queue is
    empty again. *)
Theorem submitted_task_reaches_get (k : nat) (ev1 ev2 : wake) (w : Worker)
    (a ret : Z) (t : Task) (s : Process) :
  wf s ->
  osThreads s !! k = Some w -> at_pc w = LoopHead ->
  isPoolRunning_ (pool s) = true ->
  taskQue_ (pool s) = [] -> 0 < taskQueMaxThreshHold_ (pool s) ->
  tasks s !! a = Some t -> generateId_ s < Int.INT32_MAX ->
  exists s3 r r',
    steps [SubmitTask (Some a) ret; Resume k ev1; Resume k ev2] s = Some s3
    /\ results s3 !! ret = Some r
    /\ Result_get r = Done ((run t (world s)).1, r')
    /\ world s3 = (run t (world s)).2
    /\ taskQue_ (pool s3) = []
    /\ executed (history s3) = executed (history s) ++ [a].
Proof.
  intros Hwf Hk Hpc Hrun Hq Hmax Ht Hg.
  destruct (submit_admitted_state a ret t s Ht Hg)
    as (s2 & extra & Hsub & Hque & Hrun2 & Hos & Htasks & Hworld & Hhist2).
  assert (Hstep : step (SubmitTask (Some a) ret) s
                  = Some (upd_tasks <[a := Task_setResult (Some ret) t]>
                           (upd_results
                              <[ret := mkResult Any_default (Semaphore_ctor 0) (Some a) true]>
                              s2))).
  { assert (Hroom : notFull s = true).
    { unfold notFull. rewrite Hq. apply Z.ltb_lt. exact Hmax. }
    cbn [step]. unfold submitTask, wait_for. rewrite Hroom. exact Hsub. }
  match type of Hstep with _ = Some ?x => set (s1 := x) in * end.
  assert (Hwf1 : wf s1) by (eapply wf_step; eassumption).
  destruct (work_cycle_from k ev1 ev2 w a ret (Task_setResult (Some ret) t)
              (mkResult Any_default (Semaphore_ctor 0) (Some a) true) [] s1)
    as (s1' & s3 & H1 & H2 & Hque3 & _ & _ & _ & _ & Hworld3 & Hresult & Hhist);
    try assumption.
  - unfold s1. cbn. rewrite Hos. apply lookup_app_l_Some. exact Hk.
  - unfold s1. cbn. rewrite Hrun2. exact Hrun.
  - unfold s1. cbn. rewrite Hque, Hq. reflexivity.
  - unfold s1. cbn. apply lookup_insert_eq.
  - reflexivity.
  - unfold s1. cbn. apply lookup_insert_eq.
  - cbn. unfold Int.INT32_MAX. lia.
  - eexists s3, _, _. split.
    { cbn [steps]. rewrite Hstep. cbn [mbind option_bind]. cbn [step].
      rewrite H1. cbn [mbind option_bind]. rewrite H2. reflexivity. }
    split; [exact Hresult|].
    cbn in Hworld3. rewrite Hworld in Hworld3. cbn. rewrite Hworld.
    split; [reflexivity|]. split; [exact Hworld3|]. split; [exact Hque3|].
    rewrite Hhist. cbn. rewrite Hhist2. unfold executed. rewrite !omap_app. cbn.
    rewrite app_nil_r. reflexivity.
Qed.

End Journey.

(** The queued task 10 is taken and executed by worker 0: its value 1 is
    in the [Result] at 100, and the output is [1]. *)
Lemma worker_takes_and_executes_witness :
  exists s2,
    steps [Resume 0 no_timeout; Resume 0 no_timeout] (Scenario.after Scenario.queued)
    = Some s2
    /\ taskQue_ (pool s2) = []
    /\ world s2 = [1]
    /\ results s2 !! 100
       = Some (mkResult (Any_holding (H := Demo.code) Demo.T_int 1) (mkSemaphore 1)
                 (Some 10) true).
Proof.
  destruct (worker_takes_and_executes (H := Demo.code) 0 no_timeout no_timeout
              (mkWorker 0 LoopHead) 10 100 (mkTask (Some 100) (Demo.tagged 1))
              (mkResult Any_default (Semaphore_ctor 0) (Some 10) true) []
              (Scenario.after Scenario.queued))
    as (s2 & Hsteps & Hque & _ & _ & _ & _ & Hworld & Hresult & _).
  - apply (reachable_wf (H := Demo.code) []).
    apply (steps_reachable (H := Demo.code) [] Scenario.queued). vm_compute. reflexivity.
  - vm_compute. reflexivity.
  - reflexivity.
  - vm_compute. reflexivity.
  - vm_compute. reflexivity.
  - vm_compute. reflexivity.
  - reflexivity.
  - vm_compute. reflexivity.
  - vm_compute. reflexivity.
  - exists s2. split; [exact Hsteps|]. split; [exact Hque|].
    split; [exact Hworld|exact Hresult].
Defined.

(** Task 10 submitted to the ready pool and executed by worker 0: [get]
    returns 1. *)
Lemma submitted_task_reaches_get_witness :
  exists s3 r r',
    steps [SubmitTask (Some 10) 100; Resume 0 no_timeout; Resume 0 no_timeout]
      Scenario.ready = Some s3
    /\ results s3 !! 100 = Some r
    /\ Result_get r = Done (Any_holding (H := Demo.code) Demo.T_int 1, r')
    /\ world s3 = [1].
Proof.
  destruct (submitted_task_reaches_get (H := Demo.code) 0 no_timeout no_timeout
              (mkWorker 0 LoopHead) 10 100 (Task_ctor (Demo.tagged 1)) Scenario.ready)
    as (s3 & r & r' & Hsteps & Hr & Hget & Hworld & _).
  - apply (reachable_wf (H := Demo.code) []).
    apply (steps_reachable (H := Demo.code) [] [Start 1; MakeTask 10 (Demo.tagged 1)]).
    vm_compute. reflexivity.
  - vm_compute. reflexivity.
  - reflexivity.
  - vm_compute. reflexivity.
  - vm_compute. reflexivity.
  - vm_compute. reflexivity.
  - vm_compute. reflexivity.
  - vm_compute. reflexivity.
  - exists s3, r, r'. split; [exact Hsteps|]. split; [exact Hr|].
    split; [exact Hget|exact Hworld].
Defined.

(** ** One task, two [Result]s; a full queue *)

Section Handles.
Context `{UserCode}.

(** X11. A task has one back pointer.  When a second [Result] is
    constructed for a task that already has one, the task points to the
    second; [exec] then delivers to the second only, and the first
    stays as constructed: if it is valid, [get] on it blocks. *)
Theorem second_Result_takes_over (a ret1 ret2 : Z) (v1 v2 : bool) (t : Task)
    (s : Process) :
  tasks s !! a = Some t -> ret1 <> ret2 ->
  exists s1 s2 s3,
    Result_ctor ret1 (Some a) v1 s = Some s1
    /\ Result_ctor ret2 (Some a) v2 s1 = Some s2
    /\ (tasks s2 !! a) ≫= result_ = Some ret2
    /\ Task_exec a s2 = Some s3
    /\ results s3 !! ret2
       = Some (mkResult (run t (world s)).1 (mkSemaphore 1) (Some a) v2)
    /\ results s3 !! ret1
       = Some (mkResult Any_default (Semaphore_ctor 0) (Some a) v1)
    /\ (v1 = true ->
        Result_get (mkResult Any_default (Semaphore_ctor 0) (Some a) v1) = Blocked).
Proof.
  intros Ht Hne.
  destruct (run t (world s)) as [any w'] eqn:Hrun_t.
  eexists _, _, _. split.
  { unfold Result_ctor. cbn. rewrite Ht. reflexivity. }
  split.
  { unfold Result_ctor. cbn. rewrite lookup_insert_eq. reflexivity. }
  split.
  { cbn. rewrite lookup_insert_eq. reflexivity. }
  split.
  { unfold Task_exec. cbn. rewrite lookup_insert_eq. cbn. rewrite Hrun_t. cbn.
    rewrite lookup_insert_eq. cbn. reflexivity. }
  cbn. rewrite lookup_insert_eq.
  rewrite lookup_insert_ne by congruence.
  rewrite lookup_insert_ne by congruence.
  rewrite lookup_insert_eq.
  split; [reflexivity|]. split; [reflexivity|].
  intros ->. reflexivity.
Qed.

(** An admitted submission in fixed mode. *)
Lemma submit_fixed (a ret : Z) (s : Process) :
  poolMode_ (pool s) = MODE_FIXED -> is_Some (tasks s !! a) -> notFull s = true ->
  exists s',
    step (SubmitTask (Some a) ret) s = Some s'
    /\ taskQue_ (pool s') = taskQue_ (pool s) ++ [Some a]
    /\ poolMode_ (pool s') = MODE_FIXED
    /\ taskQueMaxThreshHold_ (pool s') = taskQueMaxThreshHold_ (pool s)
    /\ (forall b, is_Some (tasks s !! b) -> is_Some (tasks s' !! b))
    /\ (exists r, results s' !! ret = Some r /\ isValid_ r = true).
Proof.
  intros Hmode [t Ht] Hroom.
  cbn [step]. unfold submitTask, wait_for. rewrite Hroom.
  unfold submit_admitted.
  assert (Hgrow : must_grow (pool (enqueue (Some a) s)) = false).
  { unfold must_grow. cbn. rewrite Hmode.
    rewrite bool_decide_eq_false_2 by discriminate.
    rewrite andb_false_r. reflexivity. }
  rewrite Hgrow. cbn [mbind option_bind negb].
  unfold Result_ctor. cbn. rewrite Ht. cbn.
  eexists. split; [reflexivity|]. cbn.
  repeat (split; [reflexivity || assumption|]). split.
  - intros b Hb. destruct (decide (a = b)) as [->|Hne].
    + rewrite lookup_insert_eq. eauto.
    + rewrite lookup_insert_ne by exact Hne. exact Hb.
  - eexists. rewrite lookup_insert_eq. split; reflexivity.
Qed.

(** X14. In fixed mode, while no worker takes anything, as many live
    tasks as the bound of the queue leaves room for are all admitted,
    and queued in the order of their submission.  When the queue has
    reached its bound, the next submission is rejected: the caller gets
    an invalid [Result] and the pool is as before. *)
Theorem queue_fills_to_its_bound (subs : list (Z * Z)) (s : Process) :
  poolMode_ (pool s) = MODE_FIXED ->
  Forall (λ x, is_Some (tasks s !! x.1)) subs ->
  Z.of_nat (length (taskQue_ (pool s)) + length subs) <= taskQueMaxThreshHold_ (pool s) ->
  exists s',
    steps (submit_all subs) s = Some s'
    /\ taskQue_ (pool s') = taskQue_ (pool s) ++ ((λ x, Some x.1) <$> subs)
    /\ taskQueMaxThreshHold_ (pool s') = taskQueMaxThreshHold_ (pool s)
    /\ (Z.of_nat (length (taskQue_ (pool s'))) = taskQueMaxThreshHold_ (pool s') ->
        forall a ret, is_Some (tasks s !! a) ->
          exists s'',
            step (SubmitTask (Some a) ret) s' = Some s''
            /\ pool s'' = pool s'
            /\ bound_handle ret a false s'').
Proof.
  revert s. induction subs as [|[a ret] subs IH]; intros s Hmode Hlive Hroom.
  - exists s. cbn. rewrite app_nil_r. split; [reflexivity|]. split; [reflexivity|].
    split; [reflexivity|].
    intros Hfull b ret [t Ht].
    assert (Hnotfull : notFull s = false).
    { unfold notFull. apply Z.ltb_ge. lia. }
    cbn [step]. unfold submitTask, wait_for. rewrite Hnotfull. cbn [negb].
    destruct (Result_ctor_binds ret b t false s Ht) as (s'' & Hctor & Hbound & Hpool & _).
    exists s''. auto.
  - inversion Hlive as [|? ? Ha Hrest]; subst. cbn in Ha.
    cbn [length] in Hroom.
    assert (Hnotfull : notFull s = true).
    { unfold notFull. apply Z.ltb_lt. lia. }
    destruct (submit_fixed a ret s Hmode Ha Hnotfull)
      as (s1 & Hstep & Hque & Hmode1 & Hmax & Hkeep & _).
    destruct (IH s1) as (s' & Hsteps & Hque' & Hmax' & Hnext).
    + exact Hmode1.
    + eapply Forall_impl; [exact Hrest|]. intros x Hx. apply Hkeep. exact Hx.
    + rewrite Hque, Hmax, length_app. cbn [length]. lia.
    + exists s'. split.
      { cbn [submit_all fmap list_fmap steps]. cbn [fst snd].
        change (step (SubmitTask (Some a) ret) s ≫= steps (submit_all subs) = Some s').
        rewrite Hstep. exact Hsteps. }
      rewrite Hque', Hque, <- app_assoc, Hmax', Hmax.
      split; [reflexivity|]. split; [reflexivity|].
      intros Hfull b ret' Hb. apply Hnext; [|apply Hkeep; exact Hb].
      rewrite Hque', Hque, <- app_assoc, Hmax', Hmax. exact Hfull.
Qed.

End Handles.

(** Two [Result]s for the task at 10: the one at 101 gets the value. *)
Lemma second_Result_takes_over_witness :
  exists s1 s2 s3,
    Result_ctor 100 (Some 10) true Scenario.cached = Some s1
    /\ Result_ctor 101 (Some 10) true s1 = Some s2
    /\ Task_exec 10 s2 = Some s3
    /\ results s3 !! 101
       = Some (mkResult (Any_holding (H := Demo.code) Demo.T_int 1) (mkSemaphore 1)
                 (Some 10) true)
    /\ results s3 !! 100
       = Some (mkResult Any_default (Semaphore_ctor 0) (Some 10) true).
Proof.
  destruct (second_Result_takes_over (H := Demo.code) 10 100 101 true true
              (Task_ctor (Demo.tagged 1)) Scenario.cached)
    as (s1 & s2 & s3 & H1 & H2 & _ & H3 & Hnew & Hold & _).
  - vm_compute. reflexivity.
  - discriminate.
  - exists s1, s2, s3. split; [exact H1|]. split; [exact H2|]. split; [exact H3|].
    split; [exact Hnew|exact Hold].
Defined.

(** A queue bounded by 2 takes the tasks 10 and 11 and rejects 12. *)
Lemma queue_fills_to_its_bound_witness :
  exists s',
    steps (submit_all [(10, 100); (11, 101)]) Scenario.three_tasks = Some s'
    /\ taskQue_ (pool s') = [Some 10; Some 11]
    /\ exists s'',
         step (SubmitTask (Some 12) 102) s' = Some s''
         /\ pool s'' = pool s'
         /\ bound_handle 102 12 false s''.
Proof.
  destruct (queue_fills_to_its_bound (H := Demo.code) [(10, 100); (11, 101)]
              Scenario.three_tasks) as (s' & Hsteps & Hque & Hmax & Hnext).
  - reflexivity.
  - repeat constructor; vm_compute; eexists; reflexivity.
  - vm_compute. discriminate.
  - exists s'. split; [exact Hsteps|]. split; [exact Hque|].
    apply Hnext.
    + rewrite Hque, Hmax. reflexivity.
    + vm_compute. eexists. reflexivity.
Defined.

(** ** The worker count under the threshold *)

Section Threshold.
Context `{UserCode}.

(** A resumed thread leaves the current count alone or, reaped, takes one
    off a count above the initial size. *)
Lemma threadFunc_cur (k : nat) (ev : wake) (s s' : Process) :
  wf s -> threadFunc k ev s = Some s' ->
  curThreadSize_ (pool s') = curThreadSize_ (pool s)
  \/ (Int.to_uint (initThreadSize_ (pool s)) < curThreadSize_ (pool s)
      /\ curThreadSize_ (pool s') = curThreadSize_ (pool s) - 1).
Proof.
  intros Hwf Hstep. pose proof (wf_cur s Hwf) as Hrange.
  destruct (threadFunc_thread k ev s s' Hstep) as [w Hk].
  destruct (at_pc w) as [| |task| |] eqn:Hpc; [| | | |left;
    rewrite (threadFunc_Entered k ev w s Hk Hpc) in Hstep;
    case_bool_decide;
      [injection Hstep as <-; reflexivity
      |apply take_task_pool in Hstep as (task & rest & _ & ->); reflexivity]].
  - left. rewrite (threadFunc_LoopHead k ev w s Hk Hpc) in Hstep.
    destruct (isPoolRunning_ (pool s)); [case_bool_decide|].
    + injection Hstep as <-. reflexivity.
    + apply take_task_pool in Hstep as (task & rest & _ & ->). reflexivity.
    + injection Hstep as <-. reflexivity.
  - rewrite (threadFunc_Waiting k ev w s Hk Hpc) in Hstep.
    destruct (bool_decide (poolMode_ (pool s) = MODE_CACHED) && must_reap ev (pool s))
      eqn:Hreap.
    + right. injection Hstep as <-.
      apply andb_true_iff in Hreap as [_ Hmust].
      destruct ev as [|dur]; [discriminate|]. cbn in Hmust.
      apply andb_true_iff in Hmust as [_ Habove]. apply Z.ltb_lt in Habove.
      pose proof (IntFacts.to_uint_range (initThreadSize_ (pool s))).
      split; [exact Habove|]. cbn. apply IntFacts.to_uint_pred. lia.
    + left. destruct (isPoolRunning_ (pool s)); cbn in Hstep; [case_bool_decide|].
      * injection Hstep as <-. reflexivity.
      * apply take_task_pool in Hstep as (task & rest & _ & ->). reflexivity.
      * injection Hstep as <-. reflexivity.
  - left. rewrite (threadFunc_Executing k ev w task s Hk Hpc) in Hstep.
    apply run_task_pool in Hstep as (-> & _). reflexivity.
  - unfold threadFunc in Hstep. rewrite Hk in Hstep. cbn in Hstep.
    rewrite Hpc in Hstep. discriminate.
Qed.

Lemma threshold_step (a : action) (s s' : Process) :
  wf s -> isPoolRunning_ (pool s) = true ->
  curThreadSize_ (pool s) <= threadSizeThreshHold_ (pool s) ->
  workload a -> step a s = Some s' ->
  curThreadSize_ (pool s') <= threadSizeThreshHold_ (pool s').
Proof.
  intros Hwf Hrun Hle Hwl Hstep.
  assert (Hnd : not_destroy a) by (destruct a; exact I || destruct Hwl).
  destruct (running_step a s s' Hrun Hnd Hstep) as (_ & _ & _ & ->).
  pose proof (wf_cur s Hwf) as Hrange.
  destruct a as [a run|t|t|m|n|sp ret|ret|k ev| |k]; try destruct Hwl.
  - cbn in Hstep. destruct (tasks s !! a); [discriminate|].
    injection Hstep as <-. exact Hle.
  - cbn in Hstep. destruct (Int.is_int t); [|discriminate]. injection Hstep as <-.
    cbn. unfold setTaskQueMaxThreshHold, chackRunningState. rewrite Hrun. exact Hle.
  - cbn in Hstep. destruct (Int.is_int t); [|discriminate]. injection Hstep as <-.
    cbn. unfold setThreadSizeThreshHold, chackRunningState. rewrite Hrun. exact Hle.
  - cbn in Hstep. injection Hstep as <-.
    cbn. unfold setMode, chackRunningState. rewrite Hrun. exact Hle.
  - apply step_submit_cases in Hstep as [[_ Hctor]|(_ & s2 & Hctor & Hs2)];
      apply Result_ctor_frame in Hctor as (-> & _); [exact Hle|].
    destruct Hs2 as [[_ ->]|[Hgrow Hg]]; [exact Hle|].
    apply must_grow_spec in Hgrow as (_ & _ & Hbelow). cbn in Hbelow.
    pose proof (grow_defined _ _ Hg) as Hlt.
    rewrite grow_spec in Hg by exact Hlt. injection Hg as <-. cbn.
    pose proof (IntFacts.to_uint_succ_le (curThreadSize_ (pool s))). lia.
  - cbn in Hstep. destruct (results s !! ret) as [r|]; cbn in Hstep; [|discriminate].
    destruct (Result_get r) as [[any r']| |]; [|discriminate..].
    injection Hstep as <-. exact Hle.
  - cbn in Hstep. destruct (threadFunc_cur k ev s s' Hwf Hstep) as [->|[_ ->]]; lia.
  - apply step_pass_cases in Hstep as (w & _ & _ & _ & ->). exact Hle.
Qed.

(** X16. In a running pool whose current worker count is at most the
    threshold, the count stays at most the threshold whatever is
    submitted and however the workers are scheduled: [submitTask] adds a
    worker only below the threshold, and nothing else adds one. *)
Theorem worker_count_stays_within_threshold (tr : list action) (s s' : Process) :
  wf s ->
  isPoolRunning_ (pool s) = true ->
  curThreadSize_ (pool s) <= threadSizeThreshHold_ (pool s) ->
  Forall workload tr ->
  steps tr s = Some s' ->
  curThreadSize_ (pool s') <= threadSizeThreshHold_ (pool s')
  /\ threadSizeThreshHold_ (pool s') = threadSizeThreshHold_ (pool s).
Proof.
  revert s. induction tr as [|a tr IH]; intros s Hwf Hrun Hle Hall Hsteps;
    cbn in Hsteps.
  - injection Hsteps as <-. auto.
  - inversion Hall as [|? ? Ha Htr]; subst.
    destruct (step a s) as [s1|] eqn:Hstep; cbn in Hsteps; [|discriminate].
    assert (Hnd : not_destroy a) by (destruct a; exact I || destruct Ha).
    destruct (running_step a s s1 Hrun Hnd Hstep) as (Hrun1 & _ & _ & Hth).
    assert (Hwf1 : wf s1) by (eapply wf_step; eassumption).
    assert (Hle1 : curThreadSize_ (pool s1) <= threadSizeThreshHold_ (pool s1))
      by (apply (threshold_step a s s1); assumption).
    destruct (IH s1 Hwf1 Hrun1 Hle1 Htr Hsteps) as [Hle' Hth'].
    split; [exact Hle'|]. rewrite Hth'. exact Hth.
Qed.

End Threshold.

(** The grown pool has 2 workers under the threshold of 100; a further
    submission and idle time-outs keep the count under it. *)
Lemma worker_count_stays_within_threshold_witness :
  exists s',
    steps Scenario.more_load Scenario.grown = Some s'
    /\ curThreadSize_ (pool s') <= THREAD_MAX_THRESHHOLD.
Proof.
  destruct (steps Scenario.more_load Scenario.grown) as [s'|] eqn:Hsteps;
    [|vm_compute in Hsteps; discriminate].
  exists s'. split; [reflexivity|].
  destruct (worker_count_stays_within_threshold (H := Demo.code)
              Scenario.more_load Scenario.grown s')
    as [Hle Hth]; [| | | |exact Hsteps|].
  - apply (reachable_wf (H := Demo.code) []).
    apply (steps_reachable (H := Demo.code) [] Scenario.grow_then_idle).
    vm_compute. reflexivity.
  - vm_compute. reflexivity.
  - vm_compute. discriminate.
  - repeat constructor.
  - rewrite Hth in Hle. exact Hle.
Defined.

(** ** Growth and the threshold *)

Section GrowthBound.
Context `{UserCode}.

(** A loop of [k] iterations that has run to its end, with a property
    indexed by the number of iterations done. *)
Lemma for_loop_counted (P : nat -> Process -> Prop)
    (body : Z -> Process -> option Process) (k : nat) (i0 : Z) (s s' : Process) :
  P 0%nat s ->
  (forall j x x', (j < k)%nat -> P j x -> body (i0 + Z.of_nat j) x = Some x' ->
     P (Datatypes.S j) x') ->
  for_loop i0 k body s = Some s' -> P k s'.
Proof.
  revert P i0 s. induction k as [|k IH]; intros P i0 s H0 Hbody Hloop; cbn in Hloop.
  - injection Hloop as <-. exact H0.
  - destruct (body i0 s) as [s1|] eqn:Hb; cbn in Hloop; [|discriminate].
    apply (IH (λ j, P (Datatypes.S j)) (i0 + 1) s1); [| |exact Hloop].
    + apply (Hbody 0%nat s s1); [lia|exact H0|].
      rewrite Z.add_0_r. exact Hb.
    + intros j x x' Hj HP Hx. apply (Hbody (Datatypes.S j) x x'); [lia|exact HP|].
      rewrite <- Hx. f_equal. lia.
Qed.

(** [start(n)] adds [n] to the current count, and the pool is running. *)
Lemma start_cur (n : Z) (s s' : Process) :
  wf s -> start n s = Some s' ->
  curThreadSize_ (pool s')
  = Int.to_uint (curThreadSize_ (pool s) + Z.of_nat (Z.to_nat n))
  /\ isPoolRunning_ (pool s') = true.
Proof.
  intros Hwf. unfold start. cbn.
  destruct (for_loop 0 (Z.to_nat n) start_create _) as [s1|] eqn:H1; cbn; [|discriminate].
  intros H2.
  apply (for_loop_counted
           (λ j x, curThreadSize_ (pool x)
                   = Int.to_uint (curThreadSize_ (pool s) + Z.of_nat j)
                   /\ isPoolRunning_ (pool x) = true)) in H1.
  - apply (for_loop_counted
             (λ _ x, curThreadSize_ (pool x)
                     = Int.to_uint (curThreadSize_ (pool s) + Z.of_nat (Z.to_nat n))
                     /\ isPoolRunning_ (pool x) = true)) in H2.
    + exact H2.
    + exact H1.
    + intros j x x' _ Hx Hl. apply start_launch_effect in Hl as (th & _ & ->). exact Hx.
  - cbn. rewrite Z.add_0_r. split; [|reflexivity].
    symmetry. apply IntFacts.to_uint_small. exact (wf_cur s Hwf).
  - intros j x x' _ [Hc Hrun] Hl. apply start_create_effect in Hl as [-> _]. cbn.
    split; [|exact Hrun]. rewrite Hc, to_uint_succ_mod. f_equal. lia.
Qed.

(** The calls that configure the pool create no worker. *)
Lemma configuring_steps (cfg : list action) (s s' : Process) :
  Forall configuring cfg -> steps cfg s = Some s' ->
  curThreadSize_ (pool s') = curThreadSize_ (pool s).
Proof.
  revert s. induction cfg as [|a cfg IH]; intros s Hall Hsteps; cbn in Hsteps.
  - injection Hsteps as <-. reflexivity.
  - inversion Hall as [|? ? Ha Hcfg]; subst.
    destruct (step a s) as [s1|] eqn:Hstep; cbn in Hsteps; [|discriminate].
    rewrite (IH s1 Hcfg Hsteps).
    destruct a as [a run|t|t|m|n|sp ret|ret|k ev| |k]; try destruct Ha.
    + cbn in Hstep. destruct (tasks s !! a); [discriminate|].
      injection Hstep as <-. reflexivity.
    + cbn in Hstep. destruct (Int.is_int t); [|discriminate]. injection Hstep as <-.
      cbn. unfold setTaskQueMaxThreshHold. destruct (chackRunningState (pool s)); reflexivity.
    + cbn in Hstep. destruct (Int.is_int t); [|discriminate]. injection Hstep as <-.
      cbn. unfold setThreadSizeThreshHold.
      destruct (chackRunningState (pool s)); try case_decide; reflexivity.
    + cbn in Hstep. injection Hstep as <-.
      cbn. unfold setMode. destruct (chackRunningState (pool s)); reflexivity.
Qed.

(** A running pool within its threshold stays within it. *)
Lemma within_threshold_along (tr : list action) (s s' : Process) :
  wf s ->
  isPoolRunning_ (pool s) = true ->
  curThreadSize_ (pool s) <= threadSizeThreshHold_ (pool s) ->
  Forall workload tr ->
  steps tr s = Some s' ->
  curThreadSize_ (pool s') <= threadSizeThreshHold_ (pool s')
  /\ threadSizeThreshHold_ (pool s') = threadSizeThreshHold_ (pool s).
Proof.
  revert s. induction tr as [|a tr IH]; intros s Hwf Hrun Hle Hall Hsteps;
    cbn in Hsteps.
  - injection Hsteps as <-. auto.
  - inversion Hall as [|? ? Ha Htr]; subst.
    destruct (step a s) as [s1|] eqn:Hstep; cbn in Hsteps; [|discriminate].
    assert (Hnd : not_destroy a) by (destruct a; exact I || destruct Ha).
    destruct (running_step a s s1 Hrun Hnd Hstep) as (Hrun1 & _ & _ & Hth).
    assert (Hwf1 : wf s1) by (eapply wf_step; eassumption).
    assert (Hle1 : curThreadSize_ (pool s1) <= threadSizeThreshHold_ (pool s1))
      by (apply (threshold_step a s s1); assumption).
    destruct (IH s1 Hwf1 Hrun1 Hle1 Htr Hsteps) as [Hle' Hth'].
    split; [exact Hle'|]. rewrite Hth'. exact Hth.
Qed.

(** C5, as the code has it.  In a reachable state, a [submitTask] call
    that has enqueued its task creates a worker exactly when the mode is
    cached, the pending count (the task just enqueued included) exceeds
    the idle count, and the current count is below the threshold.  It
    then creates one [Thread] with the next identifier, registers it,
    starts it, and increments the current and idle counts; otherwise it
    leaves the registry, the threads and both counts alone; so the call
    does not raise a count within the threshold above it.  When the pool
    is configured first and then started with a number of workers from 0
    to the threshold, before anything is submitted, the current count
    never exceeds the threshold, whatever is submitted and however the
    workers are scheduled, as long as the pool is neither started again
    nor destroyed. *)
Theorem submitTask_growth_bounded (w : World) :
  (forall sp ret s s',
     reachable w s ->
     submit_admitted sp ret s = Some s' ->
     (must_grow (pool (enqueue sp s)) = true
      <-> poolMode_ (pool s) = MODE_CACHED
          /\ idleThreadSize_ (pool s) < taskSize_ (pool (enqueue sp s))
          /\ curThreadSize_ (pool s) < threadSizeThreshHold_ (pool s))
     /\ (must_grow (pool (enqueue sp s)) = true ->
           generateId_ s' = generateId_ s + 1
           /\ threads_ (pool s')
              = <[generateId_ s := mkThread (generateId_ s)]> (threads_ (pool s))
           /\ size (threads_ (pool s')) = Datatypes.S (size (threads_ (pool s)))
           /\ osThreads s' = osThreads s ++ [mkWorker (generateId_ s) LoopHead]
           /\ curThreadSize_ (pool s') = Int.to_uint (Z.succ (curThreadSize_ (pool s)))
           /\ idleThreadSize_ (pool s') = Int.to_uint (Z.succ (idleThreadSize_ (pool s)))
           /\ (threadSizeThreshHold_ (pool s) < Int.UINT_MODULUS ->
               curThreadSize_ (pool s') = curThreadSize_ (pool s) + 1))
     /\ (must_grow (pool (enqueue sp s)) = false ->
           generateId_ s' = generateId_ s
           /\ threads_ (pool s') = threads_ (pool s)
           /\ osThreads s' = osThreads s
           /\ curThreadSize_ (pool s') = curThreadSize_ (pool s)
           /\ idleThreadSize_ (pool s') = idleThreadSize_ (pool s))
     /\ threadSizeThreshHold_ (pool s') = threadSizeThreshHold_ (pool s)
     /\ (curThreadSize_ (pool s) <= threadSizeThreshHold_ (pool s) ->
         curThreadSize_ (pool s') <= threadSizeThreshHold_ (pool s')))
  /\ (forall cfg K tr s1 s2 s3,
        Forall configuring cfg ->
        steps cfg (initial w) = Some s1 ->
        0 <= K <= threadSizeThreshHold_ (pool s1) ->
        step (Start K) s1 = Some s2 ->
        Forall workload tr ->
        steps tr s2 = Some s3 ->
        curThreadSize_ (pool s2) = K
        /\ curThreadSize_ (pool s3) <= threadSizeThreshHold_ (pool s3)
        /\ threadSizeThreshHold_ (pool s3) = threadSizeThreshHold_ (pool s1)).
Proof.
  split.
  - intros sp ret s s' Hreach Hsub.
    destruct (submitTask_growth w sp ret s s' Hreach Hsub)
      as (_ & Hiff & Hgrown & Hsame & Hth & Hle).
    auto.
  - intros cfg K tr s1 s2 s3 Hcfg Hsteps1 HK Hstart Hwl Hsteps3.
    pose proof (steps_reachable w cfg s1 Hsteps1) as Hreach1.
    pose proof (reachable_wf w s1 Hreach1) as Hwf1.
    pose proof (configuring_steps cfg (initial w) s1 Hcfg Hsteps1) as Hcur1.
    cbn in Hcur1.
    assert (Hwf2 : wf s2) by (eapply wf_step; eassumption).
    cbn in Hstart. destruct (Int.is_int K) eqn:Hint; [|discriminate].
    apply IntFacts.is_int_spec in Hint.
    destruct (start_cur K s1 s2 Hwf1 Hstart) as [Hcur2 Hrun2].
    pose proof (start_same_tasks_side K s1 s2 Hstart) as (_ & _ & _ & Hth2 & _).
    assert (HcurK : curThreadSize_ (pool s2) = K).
    { rewrite Hcur2, Hcur1. replace (0 + Z.of_nat (Z.to_nat K)) with K by lia.
      apply IntFacts.to_uint_small.
      unfold Int.INT32_MAX, Int.UINT_MODULUS in *. lia. }
    destruct (within_threshold_along tr s2 s3 Hwf2 Hrun2) as [Hle Hth3];
      [rewrite HcurK, Hth2; lia|exact Hwl|exact Hsteps3|].
    split; [exact HcurK|]. split; [exact Hle|]. rewrite Hth3. exact Hth2.
Qed.

End GrowthBound.

(** C5 fails as stated: in cached mode with a threshold of 2, two tasks
    submitted before the pool is started create one worker each, and
    [start(1)] adds a third: 3 workers with a threshold of 2 and an
    initial count of 1. *)
Lemma worker_count_above_threshold :
  exists s,
    steps Scenario.over_threshold (initial (H := Demo.code) []) = Some s
    /\ reachable (H := Demo.code) [] s
    /\ poolMode_ (pool s) = MODE_CACHED
    /\ threadSizeThreshHold_ (pool s) = 2
    /\ initThreadSize_ (pool s) = 1
    /\ curThreadSize_ (pool s) = 3
    /\ ~ curThreadSize_ (pool s) <= threadSizeThreshHold_ (pool s).
Proof.
  exists (Scenario.after Scenario.over_threshold).
  split; [vm_compute; reflexivity|].
  split; [apply (steps_reachable (H := Demo.code) [] Scenario.over_threshold);
          vm_compute; reflexivity|].
  repeat (split; [vm_compute; reflexivity|]).
  vm_compute. intros Hle. apply Hle. reflexivity.
Qed.

(** In cached mode with no worker yet, the first submission creates
    worker 0.  With a threshold of 2 and one worker at the start, three
    submissions bring the count to 2 and no further. *)
Lemma submitTask_growth_bounded_witness :
  (exists s',
      submit_admitted (Some 10) 100 Scenario.cached = Some s'
      /\ generateId_ s' = 1
      /\ threads_ (pool s') = <[0 := mkThread 0]> ∅
      /\ osThreads s' = [mkWorker 0 LoopHead]
      /\ curThreadSize_ (pool s') = 1)
  /\ exists s3,
       steps Scenario.busy (Scenario.after (Scenario.configure_cached ++ [Start 1]))
       = Some s3
       /\ curThreadSize_ (pool s3) <= 2.
Proof.
  destruct (submitTask_growth_bounded (H := Demo.code) []) as [Hcall Htrace].
  split.
  - destruct (submit_admitted (Some 10) 100 Scenario.cached) as [s'|] eqn:Hsub;
      [|vm_compute in Hsub; discriminate].
    exists s'. split; [reflexivity|].
    assert (Hreach : reachable (H := Demo.code) [] Scenario.cached).
    { apply (steps_reachable (H := Demo.code) []
               [SetMode MODE_CACHED; MakeTask 10 (Demo.tagged 1)]).
      reflexivity. }
    destruct (Hcall (Some 10) 100 Scenario.cached s' Hreach Hsub)
      as (_ & Hgrown & _).
    destruct Hgrown as (Hg & Hth & _ & Hos & _ & _ & Hcur); [reflexivity|].
    split; [exact Hg|]. split; [exact Hth|]. split; [exact Hos|].
    apply Hcur. reflexivity.
  - destruct (steps Scenario.busy
                (Scenario.after (Scenario.configure_cached ++ [Start 1])))
      as [s3|] eqn:Hsteps; [|vm_compute in Hsteps; discriminate].
    exists s3. split; [reflexivity|].
    destruct (Htrace Scenario.configure_cached 1 Scenario.busy
                (Scenario.after Scenario.configure_cached)
                (Scenario.after (Scenario.configure_cached ++ [Start 1])) s3)
      as (_ & Hle & Hth).
    + repeat constructor.
    + vm_compute. reflexivity.
    + vm_compute. split; discriminate.
    + vm_compute. reflexivity.
    + repeat constructor.
    + exact Hsteps.
    + rewrite Hth in Hle. exact Hle.
Defined.
